(** * bzip2 command-line front end (cmd/bzip2/main.go): model and properties

    The program is a driver around an external bzip2 codec: it validates
    flags, derives the output name of every input, moves the bytes through
    the codec and removes the original.  This development embeds
    [processFile] and [main] of [cmd/bzip2/main.go] over an explicit model of
    the operating system (a finite map from path names to files and
    directories, the three standard streams, and a record of the system
    calls that were issued) and proves the properties the specification
    states about them. *)

From Stdlib Require Import ZArith Ascii String Strings.Byte.
From stdpp Require Import base option list strings gmap sorting.

Local Open Scope Z_scope.

(** ** Go string helpers used by [processFile] *)

Module GoStrings.

(** [len(s)] *)
Definition len (s : string) : nat := String.length s.

(** [strings.HasSuffix]:
    [len(s) >= len(suffix) && s[len(s)-len(suffix):] == suffix]. *)
Definition HasSuffix (s suffix : string) : bool :=
  (len suffix <=? len s)%nat &&
  bool_decide (String.substring (len s - len suffix) (len suffix) s = suffix).

(** [path.Split]: the text up to and including the last slash, and the
    text after it.  Written by recursion on the path: the directory part
    of [c :: r] is that of [r] extended by [c] when [r] holds a slash. *)
Fixpoint Split (p : string) : string * string :=
  match p with
  | EmptyString => (EmptyString, EmptyString)
  | String c r =>
      let '(d, f) := Split r in
      match d with
      | String _ _ => (String c d, f)
      | EmptyString =>
          if Ascii.eqb c "/"%char
          then (String c EmptyString, f)
          else (EmptyString, String c f)
      end
  end.

(** The loop of [strings.genSplit] for a one-byte separator: [k] cuts are
    still allowed, [cur] is the piece being read. *)
Fixpoint split_go (sep : ascii) (k : nat) (cur : string) (s : string)
  : list string :=
  match k with
  | O => [cur +:+ s]
  | S k' =>
      match s with
      | EmptyString => [cur]
      | String c r =>
          if Ascii.eqb c sep
          then cur :: split_go sep k' EmptyString r
          else split_go sep k (cur +:+ String c EmptyString) r
      end
  end.

(** [strings.SplitN(s, sep, n)] for a one-byte [sep]: [n = 0] gives no
    piece, a negative [n] every piece, and a positive [n] at most [n]
    pieces (never more than [len(s)+1]), the last one unsplit. *)
Definition SplitN (s : string) (sep : ascii) (n : Z) : list string :=
  if n =? 0 then []
  else
    let cap := S (len s) in
    let n' := if n <? 0 then cap else Nat.min (Z.to_nat n) cap in
    split_go sep (n' - 1) EmptyString s.

(** [strings.Join] *)
Fixpoint Join (elems : list string) (sep : string) : string :=
  match elems with
  | [] => EmptyString
  | [a] => a
  | a :: rest => a +:+ sep +:+ Join rest sep
  end.

(** The slice [a[0:len(a)-1]] of a non-empty slice. *)
Definition init {A} (a : list A) : list A := take (length a - 1) a.

End GoStrings.

Import GoStrings.

(** ** The operating system as the program sees it *)

Definition bytes := list byte.

(** A path names a regular file with its contents, or a directory.  Paths
    are compared as strings: the model has no links and no second spelling
    of a name. *)
Inductive node :=
| File (data : bytes)
| Dir.

Definition IsDir (n : node) : bool :=
  match n with Dir => true | File _ => false end.

Inductive errno := ENOENT | EACCES | EISDIR | ENOTEMPTY.

Definition errno_string (e : errno) : string :=
  match e with
  | ENOENT => "no such file or directory"
  | EACCES => "permission denied"
  | EISDIR => "is a directory"
  | ENOTEMPTY => "directory not empty"
  end.

(** Go [error] values: the [*fs.PathError] of package [os], and errors made
    from a message ([fmt.Errorf], the codec's errors). *)
Inductive error :=
| PathError (op path : string) (e : errno)
| ErrorString (msg : string).

(** [err.Error()], which [%v] prints. *)
Definition Error_string (e : error) : string :=
  match e with
  | PathError op path e => op +:+ " " +:+ path +:+ ": " +:+ errno_string e
  | ErrorString msg => msg
  end.

Definition Errorf (msg : string) : error := ErrorString msg.

Inductive result (A : Type) :=
| Ok (a : A)
| Err (e : error).
Arguments Ok {A} a.
Arguments Err {A} e.

Definition is_ok {A} (r : result A) : bool :=
  match r with Ok _ => true | Err _ => false end.

(** System calls, as recorded in the trace. *)
Inductive osop := OpLstat | OpStat | OpOpen | OpCreate | OpRemove | OpReadDir.

Global Instance osop_eq_dec : EqDecision osop.
Proof. solve_decision. Defined.

Definition event : Type := osop * string.

(** Lines written to standard error. *)
Inductive diag :=
| DiagOK (path : string)                 (* "%s: OK\n" *)
| DiagNoSuffix (path suffix : string)    (* "file %s doesn't have suffix .%s\n" *)
| DiagCantGuess (path : string)          (* "Can't guess original name for %s -- using %s.out\n" *)
| DiagDone (path : string)               (* "%s: done\n" *)
| DiagRatio (path : string) (nin nout : Z) (* the ratio line of a compression *)
| DiagLog (path : string) (e : error)    (* log.Printf("%s: %v", path, err) *)
| DiagDirNoRec (path : string).          (* "%s is a directory (use -r to process recursively)" *)

Record world := mkWorld {
  w_fs : gmap string node;          (* the file system *)
  w_denied : osop → string → bool;  (* calls the system refuses (permissions) *)
  w_stdin : bytes;                  (* what is left to read on standard input *)
  w_stdout : bytes;                 (* what was written to standard output *)
  w_stderr : list diag;             (* what was written to standard error *)
  w_trace : list event              (* system calls issued, oldest first *)
}.

Definition set_fs (f : gmap string node → gmap string node) (w : world) : world :=
  mkWorld (f (w_fs w)) (w_denied w) (w_stdin w) (w_stdout w) (w_stderr w) (w_trace w).
Definition set_stdin (b : bytes) (w : world) : world :=
  mkWorld (w_fs w) (w_denied w) b (w_stdout w) (w_stderr w) (w_trace w).
Definition add_stdout (b : bytes) (w : world) : world :=
  mkWorld (w_fs w) (w_denied w) (w_stdin w) (w_stdout w ++ b) (w_stderr w) (w_trace w).
Definition add_stderr (d : diag) (w : world) : world :=
  mkWorld (w_fs w) (w_denied w) (w_stdin w) (w_stdout w) (w_stderr w ++ [d]) (w_trace w).
Definition add_trace (e : event) (w : world) : world :=
  mkWorld (w_fs w) (w_denied w) (w_stdin w) (w_stdout w) (w_stderr w) (w_trace w ++ [e]).

(** *** Computations that act on the world and may return early with an error *)

Definition M (A : Type) : Type := world → result A * world.

Definition fail {A} (e : error) : M A := λ w, (Err e, w).

Global Instance M_ret : MRet M := λ A a w, (Ok a, w).
Global Instance M_bind : MBind M := λ A B f m w,
  match m w with
  | (Ok a, w') => f a w'
  | (Err e, w') => (Err e, w')
  end.

(** Run [m] and hand its outcome to the caller instead of returning early
    (Go's [x, err := f()] followed by an inspection of [err]). *)
Definition try {A} (m : M A) : M (result A) :=
  λ w, let '(r, w') := m w in (Ok r, w').

Definition modify (f : world → world) : M unit := λ w, (Ok tt, f w).
Definition eprint (d : diag) : M unit := modify (add_stderr d).
Definition syscall (op : osop) (p : string) : M unit := modify (add_trace (op, p)).

(** *** System calls *)

(** [os.Lstat] and [os.Stat] (the same without links).  They fail only
    when the path names nothing. *)
Definition os_stat (op : osop) (name : string) (p : string) : M node :=
  syscall op p;;
  ((λ w, match w_fs w !! p with
         | Some n => (Ok n, w)
         | None => (Err (PathError name p ENOENT), w)
         end) : M node).
Definition os_Lstat : string → M node := os_stat OpLstat "lstat".
Definition os_Stat : string → M node := os_stat OpStat "stat".

(** An open input: standard input, or the node a path named when it was
    opened. *)
Inductive handle :=
| Stdin
| Opened (p : string) (n : node).

(** [os.Open]: opening a directory succeeds, reading it fails. *)
Definition os_Open (p : string) : M handle :=
  syscall OpOpen p;;
  ((λ w, if w_denied w OpOpen p then (Err (PathError "open" p EACCES), w)
       else match w_fs w !! p with
            | Some n => (Ok (Opened p n), w)
            | None => (Err (PathError "open" p ENOENT), w)
            end) : M handle).

(** Reading a handle to its end. *)
Definition read_all (h : handle) : M bytes :=
  match h with
  | Stdin => (λ w, (Ok (w_stdin w), set_stdin [] w)) : M bytes
  | Opened p (File d) => mret d
  | Opened p Dir => fail (PathError "read" p EISDIR)
  end.

(** [os.Create]: the file is created or truncated. *)
Definition os_Create (p : string) : M unit :=
  syscall OpCreate p;;
  ((λ w, if w_denied w OpCreate p then (Err (PathError "open" p EACCES), w)
       else match w_fs w !! p with
            | Some Dir => (Err (PathError "open" p EISDIR), w)
            | _ => (Ok tt, set_fs (insert p (File [])) w)
            end) : M unit).

(** Writing to the file created at [p]. *)
Definition write_file (p : string) (b : bytes) : M unit :=
  modify (set_fs (λ m, match m !! p with
                       | Some (File d) => <[p := File (d ++ b)]> m
                       | _ => m
                       end)).

(** A directory has an entry when some path continues its name with a
    slash. *)
Definition has_entry (m : gmap string node) (p : string) : bool :=
  existsb (λ kv, String.prefix (p +:+ "/") (fst kv)) (map_to_list m).

(** [os.Remove]: unlinks a file, removes an empty directory. *)
Definition os_Remove (p : string) : M unit :=
  syscall OpRemove p;;
  ((λ w, if w_denied w OpRemove p then (Err (PathError "remove" p EACCES), w)
       else match w_fs w !! p with
            | None => (Err (PathError "remove" p ENOENT), w)
            | Some Dir =>
                if has_entry (w_fs w) p
                then (Err (PathError "remove" p ENOTEMPTY), w)
                else (Ok tt, set_fs (delete p) w)
            | Some (File _) => (Ok tt, set_fs (delete p) w)
            end) : M unit).

(** ** The codec (github.com/dsnet/compress/bzip2), a collaborator

    The program never looks inside the codec; it is a parameter of the
    development. *)
Class Codec := {
  (** every byte a [Writer] of the given level emits for an input, from
      [NewWriter] to [Close] *)
  bz_encode : Z → bytes → bytes;
  (** the error of [NewWriter] for a level it refuses *)
  bz_new_writer : Z → option error;
  (** [OutputOffset] of the writer once the input is copied, before
      [Close] *)
  bz_out_offset : Z → bytes → Z;
  (** what a [Reader] yields from a stream read to its end: the decoded
      bytes, and the error that stopped it, if any *)
  bz_decode : bytes → bytes * option error
}.

(** ** Command-line flags *)

(** The flag variables of [main.go] after parsing, with [visited] the names
    of the flags the command line set ([getopt.Visit]) and [stdin] the
    package variable of the same name. *)
Record flags := mkFlags {
  stdout : bool;      (* -c *)
  decompress : bool;  (* -d *)
  force : bool;       (* -f *)
  help : bool;        (* -h *)
  verbose : bool;     (* -v *)
  keep : bool;        (* -k *)
  suffix : string;    (* -S *)
  cores : Z;          (* -cores *)
  test : bool;        (* -t *)
  compress : bool;    (* -z *)
  level : Z;          (* -l *)
  recursive : bool;   (* -r *)
  visited : list string;
  stdin : bool
}.

(** [setByUser] *)
Definition setByUser (c : flags) (name : string) : bool :=
  bool_decide (name ∈ visited c).

(** ** [processFile] *)

Section ProcessFile.
Context `{Codec}.
Variable c : flags.

(** Lines 75-83: conflicting flags. *)
Definition flags_conflict : option error :=
  if stdout c && setByUser c "S" then
    Some (Errorf "stdout set, suffix not used")
  else if stdout c && force c then
    Some (Errorf "stdout set, force not used")
  else if stdout c && keep c then
    Some (Errorf "stdout set, keep is redundant")
  else None.

Definition check_flags : M unit :=
  match flags_conflict with
  | Some e => fail e
  | None => mret tt
  end.

(** [inFile = os.Stdin] for "-", [os.Open(inFilePath)] otherwise. *)
Definition open_input (inFilePath : string) : M handle :=
  if decide (inFilePath = "-") then mret Stdin else os_Open inFilePath.

(** What a [bzip2.Reader] yields when its source delivers [src]: a source
    that fails delivers nothing and stops the reader with its error. *)
Definition reader_yield (src : result bytes) : bytes * option error :=
  match src with
  | Ok data => bz_decode data
  | Err e => ([], Some e)
  end.

(** Lines 88-116: test mode.  [bzip2.NewReader] does not fail on a nil
    configuration. *)
Definition test_file (inFilePath : string) : M unit :=
  inFile ← open_input inFilePath;
  src ← try (read_all inFile);
  match (reader_yield src).2 with
  | Some e => fail (Errorf ("test failed: " +:+ Error_string e))
  | None => if verbose c then eprint (DiagOK inFilePath) else mret tt
  end.

(** Lines 145-170: the name of the output file. *)
Definition output_name (inFilePath : string) : M string :=
  let fext := "." +:+ suffix c in
  if decompress c then
    let '(outFileDir, outFileName) := Split inFilePath in
    if HasSuffix outFileName fext then
      if (len fext <? len outFileName)%nat then
        let nstr := SplitN outFileName "." (Z.of_nat (len outFileName)) in
        let estr := Join (init nstr) "." in
        mret (outFileDir +:+ estr)
      else
        fail (Errorf ("can't strip suffix ." +:+ suffix c +:+
                      " from file " +:+ inFilePath))
    else
      eprint (DiagNoSuffix inFilePath (suffix c));;
      eprint (DiagCantGuess inFilePath);;
      mret (outFileDir +:+ outFileName +:+ ".out")
  else
    if HasSuffix inFilePath fext then
      fail (Errorf ("Input file " +:+ inFilePath +:+ " already has ." +:+
                    suffix c +:+ " suffix."))
    else mret (inFilePath +:+ "." +:+ suffix c).

(** Lines 173-185: an output file that is already there. *)
Definition check_output (outFilePath : string) : M unit :=
  r ← try (os_Lstat outFilePath);
  match r with
  | Ok f =>
      if negb (force c) then
        fail (Errorf ("outFile " +:+ outFilePath +:+
                      " exists. use -f to overwrite"))
      else if IsDir f then
        fail (Errorf ("outFile " +:+ outFilePath +:+ " is a directory"))
      else os_Remove outFilePath
  | Err _ => mret tt
  end.

(** Lines 119-187: input source and output destination.  The result is
    [outFilePath], empty when the output is standard output. *)
Definition resolve (inFilePath : string) : M string :=
  if stdin c then
    if negb (stdout c) then
      fail (Errorf "reading from stdin, can write only to stdout")
    else if setByUser c "S" then
      fail (Errorf "reading from stdin, suffix not needed")
    else mret ""
  else
    f ← os_Lstat inFilePath;
    if IsDir f then fail (Errorf (inFilePath +:+ " is a directory"))
    else if negb (stdout c) then
      if decide (suffix c = "") then
        fail (Errorf "suffix can't be an empty string")
      else
        outFilePath ← output_name inFilePath;
        check_output outFilePath;;
        mret outFilePath
    else mret "".

(** [outFile = os.Stdout], or [os.Create(outFilePath)]. *)
Definition open_output (outFilePath : string) : M unit :=
  if stdout c then mret tt else os_Create outFilePath.

(** [io.Copy(outFile, ...)] of the bytes [b]. *)
Definition write_output (outFilePath : string) (b : bytes) : M unit :=
  if stdout c then modify (add_stdout b) else write_file outFilePath b.

(** Lines 195-247: decompression.  The goroutine copies the input into
    the pipe; this side decodes the pipe into the output ([bzip2.NewReader]
    does not fail on a nil configuration).  The two run concurrently; the
    model lets the goroutine read first. *)
Definition decompress_transfer (inFilePath outFilePath : string) : M unit :=
  src ← try (inFile ← open_input inFilePath; read_all inFile);
  open_output outFilePath;;
  let '(plain, err) := reader_yield src in
  write_output outFilePath plain;;
  match err with
  | Some e => fail e
  | None =>
      if verbose c && negb (stdout c) then eprint (DiagDone inFilePath)
      else mret tt
  end.

(** Lines 248-311: compression.  The goroutine encodes the input into the
    pipe and prints the ratio line; this side copies the pipe into the
    output.  An error on the goroutine's side closes the pipe with that
    error, which the copy then returns. *)
Definition compress_transfer (inFilePath outFilePath : string) : M unit :=
  inFile ← try (open_input inFilePath);
  open_output outFilePath;;
  match inFile with
  | Err e => fail e
  | Ok inFile =>
      match bz_new_writer (level c) with
      | Some e => fail e
      | None =>
          src ← read_all inFile;
          (if verbose c then
             eprint (DiagRatio inFilePath (Z.of_nat (length src))
                       (bz_out_offset (level c) src))
           else mret tt);;
          write_output outFilePath (bz_encode (level c) src)
      end
  end.

Definition transfer (inFilePath outFilePath : string) : M unit :=
  if decompress c then decompress_transfer inFilePath outFilePath
  else compress_transfer inFilePath outFilePath.

(** Lines 314-319: the original file is removed. *)
Definition remove_original (inFilePath : string) : M unit :=
  if negb (stdout c) && negb (keep c) && negb (bool_decide (inFilePath = "-"))
  then os_Remove inFilePath
  else mret tt.

Definition processFile (inFilePath : string) : M unit :=
  check_flags;;
  if test c then test_file inFilePath
  else
    outFilePath ← resolve inFilePath;
    transfer inFilePath outFilePath;;
    remove_original inFilePath.

End ProcessFile.

(** The bytes a job reads from its input: standard input for "-", the
    contents of a regular file that may be opened otherwise. *)
Definition input_bytes (w : world) (inFilePath : string) : option bytes :=
  if decide (inFilePath = "-") then Some (w_stdin w)
  else if w_denied w OpOpen inFilePath then None
  else match w_fs w !! inFilePath with
       | Some (File d) => Some d
       | _ => None
       end.

(** The dots of a name. *)
Fixpoint count_dots (s : string) : nat :=
  match s with
  | EmptyString => 0
  | String ch r => (if Ascii.eqb ch "." then 1 else 0) + count_dots r
  end.

(** The system calls a computation added to the trace of [w]. *)
Definition new_calls (w w' : world) : list event :=
  drop (length (w_trace w)) (w_trace w').

(** The output of a transfer can be created: it is standard output, or a
    path the system lets the job create and that is not a directory. *)
Definition can_create (c : flags) (outFilePath : string) (w : world) : Prop :=
  stdout c = false →
  w_denied w OpCreate outFilePath = false ∧ w_fs w !! outFilePath ≠ Some Dir.

(** Nothing stands in the way of an output file (lines 173-185): the name
    is free, or [-f] is set and a regular file that the system lets the job
    remove is there. *)
Definition output_clear (c : flags) (outFilePath : string) (w : world) : Prop :=
  match w_fs w !! outFilePath with
  | None => True
  | Some (File _) => force c = true ∧ w_denied w OpRemove outFilePath = false
  | Some Dir => False
  end.

(** A transfer from [w] to [w'] wrote the bytes [b]: at the end of standard
    output, or as the contents of the output file. *)
Definition wrote (c : flags) (outFilePath : string) (w w' : world) (b : bytes)
  : Prop :=
  if stdout c then w_stdout w' = w_stdout w ++ b
  else w_fs w' !! outFilePath = Some (File b).

(** A computation keeps the permissions, changes the file system only along
    the relation [R], and only adds to the trace. *)
Definition keeps (R : relation (gmap string node)) (w w' : world) : Prop :=
  w_denied w' = w_denied w ∧ R (w_fs w) (w_fs w') ∧
  w_trace w `prefix_of` w_trace w'.
Definition frames (R : relation (gmap string node)) {A} (m : M A) : Prop :=
  ∀ w r w', m w = (r, w') → keeps R w w'.

(** Two file systems agree outside the path [p]. *)
Definition same_but (p : string) (m m' : gmap string node) : Prop :=
  ∀ q, q ≠ p → m' !! q = m !! q.

(** No directory of [m'] is new. *)
Definition no_new_dir (m m' : gmap string node) : Prop :=
  ∀ q, m' !! q = Some Dir → m !! q = Some Dir.

(** ** Directory traversal ([path/filepath]) *)

(** [filepath.Join] of a directory and one of its entries, for the names
    of the model, which are spelled in one way only. *)
Definition filepath_Join (dir name : string) : string := dir +:+ "/" +:+ name.

(** A name with a slash in it. *)
Fixpoint has_slash (s : string) : bool :=
  match s with
  | EmptyString => false
  | String ch r => Ascii.eqb ch "/" || has_slash r
  end.

(** The entry [k] names inside the directory [dir], when [k] is one step
    below [dir]. *)
Definition entry_name (dir k : string) : option string :=
  let pre := dir +:+ "/" in
  if String.prefix pre k then
    let n := String.substring (len pre) (len k - len pre) k in
    if bool_decide (n = "") || has_slash n then None else Some n
  else None.

(** The sorted names [readDirNames] returns. *)
Definition dir_names (m : gmap string node) (dir : string) : list string :=
  merge_sort String.le (omap (λ kv, entry_name dir (fst kv)) (map_to_list m)).

Definition readDirNames (dir : string) : M (list string) :=
  syscall OpReadDir dir;;
  ((λ w, if w_denied w OpReadDir dir then (Err (PathError "open" dir EACCES), w)
         else (Ok (dir_names (w_fs w) dir), w)) : M (list string)).

(** ** [main] *)

(** What [main] asks of the host besides the file system. *)
Record host := mkHost {
  NumCPU : Z;                 (* runtime.NumCPU() *)
  stdout_is_terminal : bool   (* isatty.IsTerminal(os.Stdout.Fd()) *)
}.

Definition set_level (l : Z) (c : flags) : flags :=
  mkFlags (stdout c) (decompress c) (force c) (help c) (verbose c) (keep c)
    (suffix c) (cores c) (test c) (compress c) l (recursive c) (visited c)
    (stdin c).
Definition set_stdin_flag (b : bool) (c : flags) : flags :=
  mkFlags (stdout c) (decompress c) (force c) (help c) (verbose c) (keep c)
    (suffix c) (cores c) (test c) (compress c) (level c) (recursive c)
    (visited c) b.
Definition set_stdout_flag (b : bool) (c : flags) : flags :=
  mkFlags b (decompress c) (force c) (help c) (verbose c) (keep c)
    (suffix c) (cores c) (test c) (compress c) (level c) (recursive c)
    (visited c) (stdin c).
Definition set_cores (n : Z) (c : flags) : flags :=
  mkFlags (stdout c) (decompress c) (force c) (help c) (verbose c) (keep c)
    (suffix c) n (test c) (compress c) (level c) (recursive c) (visited c)
    (stdin c).

(** [strconv.Itoa(i)] for the digits 1 to 9. *)
Definition digits : list (Z * string) :=
  [(1, "1"); (2, "2"); (3, "3"); (4, "4"); (5, "5");
   (6, "6"); (7, "7"); (8, "8"); (9, "9")].

(** Lines 361-368: a level given as [-1] .. [-9]. *)
Definition level_of_digit (c : flags) : flags :=
  if setByUser c "l" then c
  else match List.find (λ d, setByUser c (snd d)) digits with
       | Some d => set_level (fst d) c
       | None => c
       end.

(** How [main] goes on after looking at the flags. *)
Inductive setup :=
| Fatal (msg : string)                  (* [exit]: usage, then log.Fatalf *)
| Help                                  (* usage, then os.Exit(0) *)
| Run (c : flags) (files : list string).

(** Lines 358-407, with [c] the flag variables as [getopt.Parse] left them
    and [args] the arguments that are not flags. *)
Definition main_setup (h : host) (c : flags) (args : list string) : setup :=
  let c := set_stdin_flag false c in   (* [var stdin bool]: false at the start *)
  let c := level_of_digit c in
  if (level c <? 1) || (9 <? level c) then
    Fatal "invalid compression level: must be between 1 and 9"
  else if help c then Help
  else if setByUser c "cores" && ((cores c <? 1) || (32 <? cores c)) then
    Fatal "invalid number of cores"
  else
    let '(files, c) :=
      match args with
      | [] => (["-"], set_stdin_flag true c)
      | _ => (args, c)
      end in
    let c :=
      if negb (stdout_is_terminal h) && stdin c && negb (stdout c)
      then set_stdout_flag true c else c in
    let c := if cores c <=? 0 then set_cores (NumCPU h) c else c in
    Run c files.

(** The state the goroutines of [main] share: the world, the variable
    [hasErrors], and a record of every job and traversal entry with its
    result.  The record is not a variable of the program; the statements
    about the exit status are made with it. *)
Record proc := mkProc {
  p_world : world;
  hasErrors : bool;
  p_entries : list (string * result unit)
}.

Definition start (w : world) : proc := mkProc w false [].

Section Main.
Context `{Codec}.
Variable c : flags.

(** The result of a job or traversal entry goes into the record, whatever
    the program then does about it. *)
Definition record (path : string) (r : result unit) (p : proc) : proc :=
  mkProc (p_world p) (hasErrors p) (p_entries p ++ [(path, r)]).

(** [log.Printf("%s: %v", path, err); hasErrors = true] *)
Definition report (path : string) (e : error) (p : proc) : proc :=
  mkProc (add_stderr (DiagLog path e) (p_world p)) true (p_entries p).

(** [processFile(path)], and the report of its error. *)
Definition run_file (path : string) (p : proc) : proc :=
  let '(r, w) := processFile c path (p_world p) in
  let p := record path r (mkProc w (hasErrors p) (p_entries p)) in
  match r with
  | Ok _ => p
  | Err e => report path e p
  end.

(** The function given to [filepath.Walk] (lines 442-459).  It returns
    nil in every case, so the walk is never cut short. *)
Definition walkFn (path : string) (fi : option node) (err : option error)
  (p : proc) : proc :=
  match err with
  | Some e => report path e (record path (Err e) p)
  | None =>
      match fi with
      | Some n => if negb (IsDir n) then run_file path p else p
      | None => p
      end
  end.

(** A system call made by the traversal. *)
Definition sys {A} (m : M A) (p : proc) : result A * proc :=
  let '(r, w) := m (p_world p) in (r, mkProc w (hasErrors p) (p_entries p)).

(** [walk] of [path/filepath], for a function that returns nil.  The
    recursion descends one directory level per unit of [depth]; with the
    depth [Walk] gives it, it never stops for lack of depth
    ([walk_depth_enough] below). *)
Fixpoint walk (depth : nat) (path : string) (info : node) (p : proc) : proc :=
  if negb (IsDir info) then walkFn path (Some info) None p
  else
    match depth with
    | O => p
    | S depth' =>
        let '(names, p) := sys (readDirNames path) p in
        match names with
        | Err e => walkFn path (Some info) (Some e) p
        | Ok names =>
            let p := walkFn path (Some info) None p in
            fold_left
              (λ p name,
                 let filename := filepath_Join path name in
                 let '(fileInfo, p) := sys (os_Lstat filename) p in
                 match fileInfo with
                 | Err e => walkFn filename None (Some e) p
                 | Ok fileInfo => walk depth' filename fileInfo p
                 end)
              names p
        end
    end.

(** The directories of a file system: no walk is deeper than their
    number. *)
Definition dir_count (m : gmap string node) : nat :=
  size (filter (λ kv, IsDir (snd kv) = true) m).

(** [filepath.Walk(root, fn)] *)
Definition Walk (root : string) (p : proc) : proc :=
  let '(info, p) := sys (os_Lstat root) p in
  match info with
  | Err e => walkFn root None (Some e) p
  | Ok info => walk (S (dir_count (w_fs (p_world p)))) root info p
  end.

(** Lines 424-479: what the goroutine of one argument does between
    taking and giving back its slot. *)
Definition job (file : string) (p : proc) : proc :=
  if decide (file = "-") then run_file file p
  else
    let '(info, p) := sys (os_Stat file) p in
    match info with
    | Err e => report file e (record file (Err e) p)
    | Ok info =>
        if IsDir info then
          if recursive c then Walk file p
          else
            let p := record file (Err (Errorf (file +:+ " is a directory"))) p in
            mkProc (add_stderr (DiagDirNoRec file) (p_world p)) true
                   (p_entries p)
        else run_file file p
    end.

(** *** The goroutines and the semaphore *)

(** Where the goroutine of an argument stands: before [sem <- struct{}{}],
    in its body, past its body and before the deferred [<-sem], done. *)
Inductive gstate := Spawned | Running | Returning | Finished.

Global Instance gstate_eq_dec : EqDecision gstate.
Proof. solve_decision. Defined.

Record sched := mkSched {
  s_proc : proc;
  s_sem : nat;                        (* elements in the channel [sem] *)
  s_jobs : list (string * gstate)     (* one goroutine per argument *)
}.

(** [sem := make(chan struct{}, *cores)] *)
Definition capacity : nat := Z.to_nat (cores c).

Definition initial (files : list string) (w : world) : sched :=
  mkSched (start w) 0 (map (λ f, (f, Spawned)) files).

Inductive step : sched → sched → Prop :=
| step_acquire i f pr sem jobs :    (* the send goes through when the channel has room *)
    jobs !! i = Some (f, Spawned) →
    (sem < capacity)%nat →
    step (mkSched pr sem jobs) (mkSched pr (S sem) (<[i := (f, Running)]> jobs))
| step_body i f pr sem jobs :
    jobs !! i = Some (f, Running) →
    step (mkSched pr sem jobs) (mkSched (job f pr) sem (<[i := (f, Returning)]> jobs))
| step_release i f pr sem jobs :    (* the receive takes one element out *)
    jobs !! i = Some (f, Returning) →
    step (mkSched pr (S sem) jobs) (mkSched pr sem (<[i := (f, Finished)]> jobs)).

Definition reachable (files : list string) (w : world) : sched → Prop :=
  rtc step (initial files w).

(** [wg.Wait()] returns. *)
Definition all_finished (s : sched) : Prop :=
  Forall (λ j, snd j = Finished) (s_jobs s).

(** Goroutines that hold a slot of the semaphore. *)
Definition holds_slot (j : string * gstate) : bool :=
  match snd j with Running | Returning => true | _ => false end.
Definition holders (s : sched) : nat :=
  length (filter (λ j, holds_slot j = true) (s_jobs s)).

(** Lines 484-487 *)
Definition exit_status (s : sched) : Z :=
  if hasErrors (s_proc s) then 1 else 0.

(** One run of every goroutine after the other, in the order of the
    arguments. *)
Definition run_in_order (files : list string) (w : world) : proc :=
  fold_left (λ p f, job f p) files (start w).

End Main.

(** *** The goroutines, call by call

    For a transfer [processFile] makes a pipe and starts a goroutine of its
    own (lines 190-216, 249-291) that copies the input into the pipe, while
    [processFile] copies the pipe into the output.  The states and steps
    below follow the goroutine of an argument through its calls of
    [processFile], together with the goroutines those calls start.  What a
    call meets in the files and streams decides which of its returns it
    takes; the steps leave that open: every return the code has can be
    taken. *)

(** The goroutine a transfer starts: it copies until it closes the write
    end of the pipe ([pw.Close], [pw.CloseWithError]), at the end of its
    input or at its first error; that is the last thing it does. *)
Inductive producer := Copying | Closed.

(** Where the goroutine of an argument stands. *)
Inductive phase :=
| Waiting                   (* before [sem <- struct{}{}] *)
| Between (called : bool)   (* holds a slot, outside [processFile]: [Stat],
                               the walk, the log; [called]: it has called
                               [processFile] already *)
| Resolving                 (* in [processFile], before the pipe: lines 75-187 *)
| Piped (pr : producer)     (* in [processFile], in the transfer: lines
                               190-311, with the goroutine it started *)
| Left.                     (* the deferred [<-sem] has run *)

Record gjob := mkGjob {
  gj_file : string;
  gj_phase : phase;
  gj_behind : nat   (* goroutines started by calls of this job that have
                       returned, and still copying *)
}.

Record gate := mkGate {
  g_sem : nat;            (* elements in the channel [sem] *)
  g_jobs : list gjob      (* one goroutine of [main] per argument *)
}.

Definition gate_initial (files : list string) : gate :=
  mkGate 0 (map (λ f, mkGjob f Waiting 0) files).

Section Gate.
Variable c : flags.

(** The steps.  With [leaving = false] the returns that do not wait for the
    goroutine of the transfer are left out. *)
Inductive gstep (leaving : bool) : gate → gate → Prop :=
| g_acquire i f k sem jobs :     (* line 421: the send goes through when the channel has room *)
    jobs !! i = Some (mkGjob f Waiting k) →
    (sem < capacity c)%nat →
    gstep leaving (mkGate sem jobs)
      (mkGate (S sem) (<[i := mkGjob f (Between false) k]> jobs))
| g_call i f b k sem jobs :      (* lines 425 and 473: one call; line 451: one call per file of the walk *)
    jobs !! i = Some (mkGjob f (Between b) k) →
    b = false ∨ (recursive c = true ∧ f ≠ "-") →
    gstep leaving (mkGate sem jobs)
      (mkGate sem (<[i := mkGjob f Resolving k]> jobs))
| g_no_pipe i f k sem jobs :     (* the returns of lines 75-187: conflicting flags, test mode, an error of the names *)
    jobs !! i = Some (mkGjob f Resolving k) →
    gstep leaving (mkGate sem jobs)
      (mkGate sem (<[i := mkGjob f (Between true) k]> jobs))
| g_go i f k sem jobs :          (* lines 190, 196 and 249: the pipe and its goroutine *)
    jobs !! i = Some (mkGjob f Resolving k) →
    flags_conflict c = None → test c = false →
    gstep leaving (mkGate sem jobs)
      (mkGate sem (<[i := mkGjob f (Piped Copying) k]> jobs))
| g_close i f k sem jobs :       (* lines 197, 205, 213 and 250, 258, 266, 273: the goroutine closes its end *)
    jobs !! i = Some (mkGjob f (Piped Copying) k) →
    gstep leaving (mkGate sem jobs)
      (mkGate sem (<[i := mkGjob f (Piped Closed) k]> jobs))
| g_return i f k sem jobs :      (* lines 237-247 and 306-321: [io.Copy] has come to the end of the pipe, or to the error it was closed with *)
    jobs !! i = Some (mkGjob f (Piped Closed) k) →
    gstep leaving (mkGate sem jobs)
      (mkGate sem (<[i := mkGjob f (Between true) k]> jobs))
| g_leave i f k sem jobs :       (* lines 218-222, 229-233, 237-241, 298-302, 306-310: [pr.Close(); return err] at an error of this side; the goroutine is not waited for *)
    leaving = true →
    jobs !! i = Some (mkGjob f (Piped Copying) k) →
    gstep leaving (mkGate sem jobs)
      (mkGate sem (<[i := mkGjob f (Between true) (S k)]> jobs))
| g_behind_ends i f ph k sem jobs :   (* a goroutine left behind finds the pipe closed and ends *)
    jobs !! i = Some (mkGjob f ph (S k)) →
    gstep leaving (mkGate sem jobs)
      (mkGate sem (<[i := mkGjob f ph k]> jobs))
| g_release i f b k sem jobs :   (* line 422: the deferred receive takes one element out *)
    jobs !! i = Some (mkGjob f (Between b) k) →
    gstep leaving (mkGate (S sem) jobs)
      (mkGate sem (<[i := mkGjob f Left k]> jobs)).

End Gate.

(** Goroutines of [main] between their send and their receive. *)
Definition in_slot (j : gjob) : bool :=
  match gj_phase j with
  | Between _ | Resolving | Piped _ => true
  | Waiting | Left => false
  end.
(** Goroutines of [main] whose call of [processFile] is in its transfer. *)
Definition in_transfer (j : gjob) : bool :=
  match gj_phase j with Piped _ => true | _ => false end.
(** Jobs with a goroutine left behind that is still copying. *)
Definition has_behind (j : gjob) : bool := (0 <? gj_behind j)%nat.
(** Jobs that are transferring data, the goroutines they started counted
    in: the call is in its transfer, or a goroutine of an earlier call is
    still copying. *)
Definition busy (j : gjob) : bool := in_transfer j || has_behind j.

Definition count (P : gjob → bool) (s : gate) : nat :=
  length (filter (λ j, P j = true) (g_jobs s)).






(** The directories of [m] with a longer name than [path]: those a walk
    that stands at [path] can still descend into. *)
Definition deeper_dirs (m : gmap string node) (path : string) : nat :=
  size (filter (λ kv, IsDir (snd kv) = true ∧ (len path < len (fst kv))%nat) m).

(** A step of a job makes no directory. *)
Definition makes_no_dir (F : proc → proc) : Prop :=
  ∀ p, no_new_dir (w_fs (p_world p)) (w_fs (p_world (F p))).

(** Two worlds with the same files, permissions and standard input: they
    differ in what was written and in the calls made so far. *)
Definition agree (w1 w2 : world) : Prop :=
  w_fs w1 = w_fs w2 ∧ w_denied w1 = w_denied w2 ∧ w_stdin w1 = w_stdin w2.



(** The two file systems have the same directories. *)
Definition dirs_same (m m' : gmap string node) : Prop :=
  ∀ q, m' !! q = Some Dir ↔ m !! q = Some Dir.

(** A step of a job takes the world along the relation [R]. *)
Definition maintains (R : relation world) (F : proc → proc) : Prop :=
  ∀ p, R (p_world p) (p_world (F p)).

(** A computation only adds to standard error. *)
Definition logs {A} (m : M A) : Prop :=
  ∀ w r w', m w = (r, w') → w_stderr w `prefix_of` w_stderr w'.

(** A computation writes nothing to standard output. *)
Definition silent {A} (m : M A) : Prop :=
  ∀ w r w', m w = (r, w') → w_stdout w' = w_stdout w.

(** The steps the goroutine of an argument still has to take, and those of
    all goroutines together. *)
Definition steps_left (j : string * gstate) : nat :=
  match snd j with
  | Spawned => 3
  | Running => 2
  | Returning => 1
  | Finished => 0
  end.
Definition work_left (s : sched) : nat :=
  foldr (λ j n, steps_left j + n)%nat 0%nat (s_jobs s).

(** The exit status of the process for an outcome of [main_setup]. *)
Definition setup_status (s : setup) : option Z :=
  match s with
  | Fatal _ => Some 1
  | Help => Some 0
  | Run _ _ => None
  end.

(** ** A small codec and sample worlds, to run the model *)

Module Sample.

(** The toy stream is the input behind a one-byte header. *)
Definition toy_decode (b : bytes) : bytes * option error :=
  match b with
  | x42 :: rest => (rest, None)
  | _ => ([], Some (ErrorString "bzip2: corrupted input"))
  end.

Definition toy_new_writer (l : Z) : option error :=
  if (0 <=? l) && (l <=? 9) then None
  else Some (ErrorString "bzip2: invalid compression level").

Definition toy : Codec := {|
  bz_encode := λ _ b, x42 :: b;
  bz_new_writer := toy_new_writer;
  bz_out_offset := λ _ _, 0;
  bz_decode := toy_decode
|}.

(** No flag given. *)
Definition defaults : flags :=
  mkFlags false false false false false false "bz2" 0 false true 9 false [] false.

Definition with_decompress (c : flags) : flags :=
  mkFlags (stdout c) true (force c) (help c) (verbose c) (keep c) (suffix c)
    (cores c) (test c) (compress c) (level c) (recursive c) (visited c) (stdin c).
Definition with_stdout (c : flags) : flags :=
  mkFlags true (decompress c) (force c) (help c) (verbose c) (keep c) (suffix c)
    (cores c) (test c) (compress c) (level c) (recursive c) (visited c) (stdin c).
Definition with_force (c : flags) : flags :=
  mkFlags (stdout c) (decompress c) true (help c) (verbose c) (keep c) (suffix c)
    (cores c) (test c) (compress c) (level c) (recursive c) (visited c) (stdin c).
Definition with_keep (c : flags) : flags :=
  mkFlags (stdout c) (decompress c) (force c) (help c) (verbose c) true (suffix c)
    (cores c) (test c) (compress c) (level c) (recursive c) (visited c) (stdin c).
Definition with_verbose (c : flags) : flags :=
  mkFlags (stdout c) (decompress c) (force c) (help c) true (keep c) (suffix c)
    (cores c) (test c) (compress c) (level c) (recursive c) (visited c) (stdin c).
Definition with_test (c : flags) : flags :=
  mkFlags (stdout c) (decompress c) (force c) (help c) (verbose c) (keep c) (suffix c)
    (cores c) true (compress c) (level c) (recursive c) (visited c) (stdin c).
Definition with_suffix (s : string) (c : flags) : flags :=
  mkFlags (stdout c) (decompress c) (force c) (help c) (verbose c) (keep c) s
    (cores c) (test c) (compress c) (level c) (recursive c) ("S" :: visited c) (stdin c).

Definition hello : bytes := [x68; x65; x6c; x6c; x6f].

(** A world with the given files and nothing refused. *)
Definition world_of (m : gmap string node) : world :=
  mkWorld m (λ _ _, false) [] [] [] [].

Definition w_report : world := world_of {[ "report.txt" := File hello ]}.

(** [report.txt] next to an older [report.txt.bz2]. *)
Definition w_both : world :=
  world_of {[ "report.txt" := File hello; "report.txt.bz2" := File [x00] ]}.

(** A compressed file whose name lacks the suffix. *)
Definition w_notes : world := world_of {[ "notes" := File (x42 :: hello) ]}.

(** The same next to an older [notes.out]. *)
Definition w_notes_taken : world :=
  world_of {[ "notes" := File (x42 :: hello); "notes.out" := File [x00] ]}.


(** A compressed file under a suffix with a dot in it. *)
Definition w_dotted : world := world_of {[ "a.tar.bz2" := File (x42 :: hello) ]}.

(** [hello] waiting on standard input, [report.txt] on disk. *)
Definition w_piped : world :=
  mkWorld {[ "report.txt" := File hello ]} (λ _ _, false) hello [] [] [].

(** The flags of [bzip2 -c -]. *)
Definition dash_c : flags :=
  mkFlags true false false false false false "bz2" 0 false true 9 false ["c"] false.

(** The flags of [bzip2 -cores 4 ...]. *)
Definition cores_4 : flags :=
  mkFlags false false false false false false "bz2" 4 false true 9 false ["cores"] false.

Definition a_host : host := mkHost 8 true.

(** The flags of [bzip2 -cores 1 ...]. *)
Definition cores_1 : flags :=
  mkFlags false false false false false false "bz2" 1 false true 9 false ["cores"] false.

(** Two files where the system lets nobody create a file. *)
Definition w_readonly : world :=
  mkWorld {[ "a" := File hello; "b" := File hello ]}
    (λ op _, bool_decide (op = OpCreate)) [] [] [] [].

(** A directory with a file and an empty directory in it. *)
Definition w_tree : world :=
  world_of {[ "docs" := Dir; "docs/a.txt" := File hello; "docs/old" := Dir ]}.

(** The flags of [bzip2 -r -cores 4 ...]. *)
Definition recursive_4 : flags :=
  mkFlags false false false false false false "bz2" 4 false true 9 true
    ["r"; "cores"] false.

End Sample.

(** * Properties *)

(** ** Strings *)

Example HasSuffix_ex1 : HasSuffix "report.txt.bz2" ".bz2" = true.
Proof. reflexivity. Qed.
Example HasSuffix_ex2 : HasSuffix "bz2" ".bz2" = false.
Proof. reflexivity. Qed.
Example Split_ex1 : Split "a/b/c.bz2" = ("a/b/", "c.bz2").
Proof. reflexivity. Qed.
Example Split_ex2 : Split "c.bz2" = ("", "c.bz2").
Proof. reflexivity. Qed.
Example Split_ex3 : Split "a/" = ("a/", "").
Proof. reflexivity. Qed.
Example SplitN_ex1 : SplitN "a.tar.bz2" "." 9 = ["a"; "tar"; "bz2"].
Proof. reflexivity. Qed.
Example SplitN_ex2 : SplitN "..." "." 3 = [""; ""; "."].
Proof. reflexivity. Qed.
Example SplitN_ex3 : SplitN "a.b.c" "." 2 = ["a"; "b.c"].
Proof. reflexivity. Qed.
Example Join_ex1 : Join (init ["a"; "tar"; "bz2"]) "." = "a.tar".
Proof. reflexivity. Qed.

Lemma str_app_cons (a : ascii) (s t : string) : String a s +:+ t = String a (s +:+ t).
Proof. reflexivity. Qed.

Lemma str_app_nil_l (s : string) : "" +:+ s = s.
Proof. reflexivity. Qed.

Lemma str_app_nil_r (s : string) : s +:+ "" = s.
Proof. induction s as [|a s IH]; [done|]. by rewrite str_app_cons, IH. Qed.

Lemma str_app_assoc (a b d : string) : (a +:+ b) +:+ d = a +:+ b +:+ d.
Proof. induction a as [|x a IH]; [done|]. by rewrite !str_app_cons, IH. Qed.

Lemma len_app (a b : string) : len (a +:+ b) = (len a + len b)%nat.
Proof.
  induction a as [|x a IH]; [done|].
  rewrite str_app_cons. unfold len in *. cbn. by rewrite IH.
Qed.

Lemma Split_app (p : string) : (Split p).1 +:+ (Split p).2 = p.
Proof.
  induction p as [|x p IH]; [done|]. cbn.
  destruct (Split p) as [d f]. cbn in IH.
  destruct d as [|y d].
  - rewrite str_app_nil_l in IH. subst f. by destruct (Ascii.eqb x "/").
  - cbn. by rewrite str_app_cons, IH.
Qed.

Lemma split_go_not_nil (sep : ascii) (k : nat) (cur s : string) :
  split_go sep k cur s ≠ [].
Proof.
  revert k cur. induction s as [|x s IH]; intros [|k] cur; cbn; try done.
  destruct (Ascii.eqb x sep); [done|apply IH].
Qed.

(** Joining the pieces of a split gives the text back. *)
Lemma Join_split_go (sep : ascii) (k : nat) (cur s : string) :
  Join (split_go sep k cur s) (String sep "") = cur +:+ s.
Proof.
  revert k cur. induction s as [|x s IH]; intros k cur.
  - destruct k; cbn; [done|]. by rewrite str_app_nil_r.
  - destruct k as [|k]; [done|]. cbn.
    destruct (Ascii.eqb_spec x sep) as [->|Hne].
    + specialize (IH k "").
      destruct (split_go sep k "" s) as [|a l] eqn:E;
        [by apply split_go_not_nil in E|].
      change (Join (cur :: a :: l) (String sep ""))
        with (cur +:+ String sep "" +:+ Join (a :: l) (String sep "")).
      by rewrite IH.
    + rewrite IH. by rewrite str_app_assoc.
Qed.

Lemma init_cons2 {A} (a b : A) (l : list A) : init (a :: b :: l) = a :: init (b :: l).
Proof. unfold init. cbn. by rewrite Nat.sub_0_r. Qed.

Lemma Join_cons2 (a b : string) (l : list string) (sep : string) :
  Join (a :: b :: l) sep = a +:+ sep +:+ Join (b :: l) sep.
Proof. done. Qed.

Lemma Join_init_le (l : list string) (sep : string) :
  (len (Join (init l) sep) ≤ len (Join l sep))%nat.
Proof.
  induction l as [|a l IH]; [done|].
  destruct l as [|b l]; [cbn; lia|].
  rewrite init_cons2, Join_cons2.
  destruct (init (b :: l)) as [|y l'] eqn:E.
  - cbn. rewrite len_app. unfold len. lia.
  - rewrite Join_cons2, !len_app in *. lia.
Qed.

Lemma Join_init_lt2 (a b : string) (l : list string) (sep : string) :
  (0 < len sep)%nat →
  (len (Join (init (a :: b :: l)) sep) < len (Join (a :: b :: l) sep))%nat.
Proof.
  intros Hsep. revert a b. induction l as [|x l IH]; intros a b.
  - cbn. rewrite !len_app. unfold len in *. lia.
  - rewrite init_cons2, Join_cons2.
    destruct (init (b :: x :: l)) as [|z l''] eqn:E';
      [rewrite init_cons2 in E'; discriminate|].
    rewrite Join_cons2, <- E', !len_app. specialize (IH b x). lia.
Qed.

Lemma Join_init_lt (l : list string) (sep : string) :
  (0 < len (Join l sep))%nat → (0 < len sep)%nat →
  (len (Join (init l) sep) < len (Join l sep))%nat.
Proof.
  intros Hpos Hsep.
  destruct l as [|a [|b l]]; [cbn in Hpos; lia|done|].
  by apply Join_init_lt2.
Qed.

(** ** Running the computations *)

Ltac run_M :=
  unfold mbind, M_bind, mret, M_ret, fail, try, modify, eprint, syscall.
Tactic Notation "run_M" "in" hyp(H) :=
  unfold mbind, M_bind, mret, M_ret, fail, try, modify, eprint, syscall in H.

Ltac wsimpl :=
  cbn [w_fs w_denied w_stdin w_stdout w_stderr w_trace
       set_fs set_stdin add_stdout add_stderr add_trace fst snd] in *.

Lemma os_stat_run (op : osop) (name p : string) (w : world) :
  os_stat op name p w =
    (match w_fs w !! p with
     | Some n => Ok n
     | None => Err (PathError name p ENOENT)
     end, add_trace (op, p) w).
Proof. unfold os_stat. run_M. cbn. by destruct (w_fs w !! p). Qed.

Lemma os_Lstat_run (p : string) (w : world) :
  os_Lstat p w =
    (match w_fs w !! p with
     | Some n => Ok n
     | None => Err (PathError "lstat" p ENOENT)
     end, add_trace (OpLstat, p) w).
Proof. apply os_stat_run. Qed.

(** ** What a computation leaves alone *)

Section Frames.
Context (R : relation (gmap string node)) `{!PreOrder R}.

Ltac keeps_tac :=
  repeat split; cbn; try done; try (by apply prefix_app_r).

Lemma keeps_refl (w : world) : keeps R w w.
Proof. keeps_tac. Qed.

Lemma keeps_trans (w1 w2 w3 : world) :
  keeps R w1 w2 → keeps R w2 w3 → keeps R w1 w3.
Proof.
  intros (? & ? & ?) (? & ? & ?). split; [congruence|]. split; by etrans.
Qed.

Lemma frames_ret {A} (a : A) : frames R (mret a).
Proof. intros w r w' [= _ <-]. apply keeps_refl. Qed.

Lemma frames_fail {A} (e : error) : frames R (@fail A e).
Proof. intros w r w' [= _ <-]. apply keeps_refl. Qed.

Lemma frames_bind {A B} (m : M A) (f : A → M B) :
  frames R m → (∀ a, frames R (f a)) → frames R (m ≫= f).
Proof.
  intros Hm Hf w r w'. unfold mbind, M_bind.
  destruct (m w) as [[a|e] w1] eqn:E.
  - intros Hfa. eapply keeps_trans; [by eapply Hm|by eapply Hf].
  - intros [= _ <-]. by eapply Hm.
Qed.

Lemma frames_try {A} (m : M A) : frames R m → frames R (try m).
Proof.
  intros Hm w r w'. unfold try. destruct (m w) as [r1 w1] eqn:E.
  intros [= _ <-]. by eapply Hm.
Qed.

Lemma frames_eprint (d : diag) : frames R (eprint d).
Proof. intros w r w' [= _ <-]. keeps_tac. Qed.

Lemma frames_syscall (op : osop) (p : string) : frames R (syscall op p).
Proof. intros w r w' [= _ <-]. keeps_tac. Qed.

Lemma frames_add_stdout (b : bytes) : frames R (modify (add_stdout b)).
Proof. intros w r w' [= _ <-]. keeps_tac. Qed.

Lemma frames_os_stat (op : osop) (name p : string) : frames R (os_stat op name p).
Proof. intros w r w'. rewrite os_stat_run. intros [= _ <-]. keeps_tac. Qed.

Lemma frames_os_Open (p : string) : frames R (os_Open p).
Proof.
  intros w r w'. unfold os_Open. run_M. cbn.
  destruct (w_denied w OpOpen p); [|destruct (w_fs w !! p)];
    intros [= _ <-]; keeps_tac.
Qed.

Lemma frames_read_all (h : handle) : frames R (read_all h).
Proof.
  intros w r w'. destruct h as [|p [d|]]; cbn; intros [= _ <-]; keeps_tac.
Qed.

Lemma frames_os_Create (p : string) :
  (∀ m, m !! p ≠ Some Dir → R m (<[p := File []]> m)) → frames R (os_Create p).
Proof.
  intros HR w r w'. unfold os_Create. run_M. cbn.
  destruct (w_denied w OpCreate p); [intros [= _ <-]; keeps_tac|].
  destruct (w_fs w !! p) as [[d|]|] eqn:E; intros [= _ <-]; keeps_tac;
    apply HR; by rewrite E.
Qed.

Lemma frames_write_file (p : string) (b : bytes) :
  (∀ m d, m !! p = Some (File d) → R m (<[p := File (d ++ b)]> m)) →
  frames R (write_file p b).
Proof.
  intros HR w r w'. unfold write_file. run_M. intros [= _ <-].
  keeps_tac; destruct (w_fs w !! p) as [[d|]|] eqn:E; try done; by apply HR.
Qed.

Lemma frames_os_Remove (p : string) :
  (∀ m, R m (delete p m)) → frames R (os_Remove p).
Proof.
  intros HR w r w'. unfold os_Remove. run_M. cbn.
  destruct (w_denied w OpRemove p); [intros [= _ <-]; keeps_tac|].
  destruct (w_fs w !! p) as [[d|]|] eqn:E; [| |intros [= _ <-]; keeps_tac].
  - intros [= _ <-]. keeps_tac; apply HR.
  - destruct (has_entry _ _); intros [= _ <-]; keeps_tac; apply HR.
Qed.

End Frames.

Global Instance same_but_preorder (p : string) : PreOrder (same_but p).
Proof.
  split; [by intros m q|].
  intros m1 m2 m3 H12 H23 q Hq. by rewrite H23, H12.
Qed.

Global Instance no_new_dir_preorder : PreOrder no_new_dir.
Proof.
  split; [by intros m q|].
  intros m1 m2 m3 H12 H23 q Hq. by apply H12, H23.
Qed.

Lemma no_new_dir_insert_file (m : gmap string node) (p : string) (d : bytes) :
  no_new_dir m (<[p := File d]> m).
Proof.
  intros q. destruct (decide (p = q)) as [->|Hne].
  - by rewrite lookup_insert_eq.
  - by rewrite lookup_insert_ne.
Qed.

Lemma no_new_dir_delete (m : gmap string node) (p : string) :
  no_new_dir m (delete p m).
Proof.
  intros q. destruct (decide (p = q)) as [->|Hne].
  - by rewrite lookup_delete_eq.
  - by rewrite lookup_delete_ne.
Qed.

Lemma same_but_insert (m : gmap string node) (p : string) (n : node) :
  same_but p m (<[p := n]> m).
Proof. intros q Hq. by rewrite lookup_insert_ne. Qed.

Ltac frames_with tR :=
  repeat first
    [ match goal with
      | |- PreOrder _ => apply _
      | |- frames _ (if ?b then _ else _) => destruct b
      | |- frames _ (match ?x with _ => _ end) => destruct x
      | |- ∀ _, _ => intro; cbn beta
      end
    | apply frames_ret | apply frames_fail | apply frames_eprint
    | apply frames_syscall | apply frames_add_stdout | apply frames_os_stat
    | apply frames_os_Open | apply frames_read_all
    | apply frames_os_Create; first [apply _ | solve [tR]]
    | apply frames_write_file; first [apply _ | solve [tR]]
    | apply frames_os_Remove; first [apply _ | solve [tR]]
    | apply frames_try | apply frames_bind ].

Section ProcessFileFacts.
Context `{Codec}.

(** ** C10: an empty suffix *)

(** C10. A compress or decompress job that is to write a named file (no
    [-c], input not standard input) with the empty suffix fails; all it
    did is the [Lstat] of its input: no output name was looked at, no file
    created, written or removed, nothing printed.  When the input is a
    regular file the error is the one about the empty suffix. *)
Theorem C10_empty_suffix_fails (c : flags) (inFilePath : string) (w : world) :
  test c = false → stdout c = false → stdin c = false → suffix c = "" →
  ∃ e w',
    processFile c inFilePath w = (Err e, w') ∧
    w' = add_trace (OpLstat, inFilePath) w ∧
    (∀ d, w_fs w !! inFilePath = Some (File d) →
          e = Errorf "suffix can't be an empty string").
Proof.
  intros Ht Hout Hin Hs.
  unfold processFile, check_flags, flags_conflict, resolve.
  rewrite Ht, Hout, Hin, Hs. cbn. run_M.
  rewrite os_Lstat_run.
  destruct (w_fs w !! inFilePath) as [[d|]|] eqn:E; cbn.
  - eexists _, _. split; [done|]. split; [done|]. done.
  - eexists _, _. split; [done|]. split; [done|]. intros d [=].
  - eexists _, _. split; [done|]. split; [done|]. intros d [=].
Qed.

(** ** C7: test mode *)

Lemma os_Open_run (p : string) (w : world) :
  os_Open p w =
    (if w_denied w OpOpen p then Err (PathError "open" p EACCES)
     else match w_fs w !! p with
          | Some n => Ok (Opened p n)
          | None => Err (PathError "open" p ENOENT)
          end, add_trace (OpOpen, p) w).
Proof.
  unfold os_Open. run_M. cbn.
  destruct (w_denied w OpOpen p); [done|]. by destruct (w_fs w !! p).
Qed.

Lemma new_calls_app (w w' : world) (l : list event) :
  w_trace w' = w_trace w ++ l → new_calls w w' = l.
Proof. intros E. unfold new_calls. by rewrite E, drop_app_length. Qed.

(** C7, as the program has it.  A test-mode job never changes the file
    system or standard output and issues no system call other than opening
    its input, whatever [-f] and [-k] say: no output name is derived,
    nothing is created, nothing is removed.  When the flags pass the check
    for conflicts, which comes first, it opens the input (unless that is
    standard input) and succeeds exactly when the input can be read and
    decodes without error; "OK" is printed exactly when it succeeds and
    [-v] is set. *)
Theorem C7_test_mode (c : flags) (inFilePath : string) (w : world) :
  test c = true →
  ∃ r w',
    processFile c inFilePath w = (r, w') ∧
    w_fs w' = w_fs w ∧
    w_stdout w' = w_stdout w ∧
    (∀ ev, ev ∈ new_calls w w' → ev = (OpOpen, inFilePath)) ∧
    w_stderr w' =
      w_stderr w ++ (if verbose c && is_ok r then [DiagOK inFilePath] else []) ∧
    (flags_conflict c = None →
       new_calls w w' =
         (if decide (inFilePath = "-") then [] else [(OpOpen, inFilePath)]) ∧
       (r = Ok tt ↔
        ∃ data, input_bytes w inFilePath = Some data ∧ (bz_decode data).2 = None)).
Proof.
  intros Ht. unfold processFile, check_flags. rewrite Ht.
  destruct (flags_conflict c) as [e|] eqn:Hc; run_M; cbn.
  { eexists _, _. split; [done|]. rewrite andb_false_r, app_nil_r.
    repeat split; try done. unfold new_calls. rewrite drop_all.
    intros ev Hev. by apply elem_of_nil in Hev. }
  unfold test_file, open_input, input_bytes. run_M.
  destruct (decide (inFilePath = "-")) as [->|Hne]; cbn.
  - assert (Hnc : new_calls w (set_stdin [] w) = []).
    { unfold new_calls; cbn. by rewrite drop_all. }
    destruct (bz_decode (w_stdin w)) as [plain [e|]] eqn:Hd; cbn.
    + eexists _, _. split; [done|]. cbn.
      rewrite andb_false_r, app_nil_r, Hnc.
      repeat split; try done.
      * by intros ev ?%elem_of_nil.
      * intros (data & [= <-] & Hdata). by rewrite Hd in Hdata.
    + destruct (verbose c); cbn; eexists _, _; (split; [done|]); cbn;
        rewrite ?app_nil_r; change (new_calls w _) with (new_calls w (set_stdin [] w));
        rewrite Hnc; repeat split; try done.
      all: try by intros ev ?%elem_of_nil.
      all: intros _; exists (w_stdin w); by rewrite Hd.
  - rewrite os_Open_run.
    assert (Hnc : new_calls w (add_trace (OpOpen, inFilePath) w)
                  = [(OpOpen, inFilePath)]) by by apply new_calls_app.
    destruct (w_denied w OpOpen inFilePath) eqn:Hden; cbn.
    { eexists _, _. split; [done|]. cbn. rewrite andb_false_r, app_nil_r, Hnc.
      repeat split; try done.
      - by intros ev ->%list_elem_of_singleton.
      - by intros (data & [=] & _). }
    destruct (w_fs w !! inFilePath) as [[d|]|] eqn:Hfs; cbn.
    + destruct (bz_decode d) as [plain [e|]] eqn:Hd; cbn.
      * eexists _, _. split; [done|]. cbn. rewrite andb_false_r, app_nil_r, Hnc.
        repeat split; try done.
        -- by intros ev ->%list_elem_of_singleton.
        -- intros (data & [= <-] & Hdata). by rewrite Hd in Hdata.
      * destruct (verbose c); cbn; eexists _, _; (split; [done|]); cbn;
          rewrite ?app_nil_r;
          change (new_calls w _) with (new_calls w (add_trace (OpOpen, inFilePath) w));
          rewrite Hnc; repeat split; try done.
        all: try by intros ev ->%list_elem_of_singleton.
        all: intros _; exists d; by rewrite Hd.
    + eexists _, _. split; [done|]. cbn. rewrite andb_false_r, app_nil_r, Hnc.
      repeat split; try done.
      * by intros ev ->%list_elem_of_singleton.
      * by intros (data & [=] & _).
    + eexists _, _. split; [done|]. cbn. rewrite andb_false_r, app_nil_r, Hnc.
      repeat split; try done.
      * by intros ev ->%list_elem_of_singleton.
      * by intros (data & [=] & _).
Qed.

(** ** The steps of a job on a named file *)

Lemma os_Create_run (p : string) (w : world) :
  os_Create p w =
    (if w_denied w OpCreate p then
       (Err (PathError "open" p EACCES), add_trace (OpCreate, p) w)
     else match w_fs w !! p with
          | Some Dir => (Err (PathError "open" p EISDIR), add_trace (OpCreate, p) w)
          | _ => (Ok tt, set_fs (insert p (File [])) (add_trace (OpCreate, p) w))
          end).
Proof.
  unfold os_Create. run_M. cbn.
  destruct (w_denied w OpCreate p); [done|]. by destruct (w_fs w !! p) as [[]|].
Qed.

Lemma os_Remove_run (p : string) (w : world) :
  os_Remove p w =
    (if w_denied w OpRemove p then
       (Err (PathError "remove" p EACCES), add_trace (OpRemove, p) w)
     else match w_fs w !! p with
          | None => (Err (PathError "remove" p ENOENT), add_trace (OpRemove, p) w)
          | Some Dir =>
              if has_entry (w_fs w) p
              then (Err (PathError "remove" p ENOTEMPTY), add_trace (OpRemove, p) w)
              else (Ok tt, set_fs (delete p) (add_trace (OpRemove, p) w))
          | Some (File _) => (Ok tt, set_fs (delete p) (add_trace (OpRemove, p) w))
          end).
Proof.
  unfold os_Remove. run_M. cbn.
  destruct (w_denied w OpRemove p); [done|]. by destruct (w_fs w !! p) as [[]|].
Qed.

(** A job that is not a test and whose flags do not conflict resolves its
    names, transfers, and removes the original. *)
Lemma processFile_run (c : flags) (inFilePath : string) (w : world) :
  test c = false → flags_conflict c = None →
  processFile c inFilePath w =
    (outFilePath ← resolve c inFilePath;
     transfer c inFilePath outFilePath;; remove_original c inFilePath) w.
Proof.
  intros Ht Hc. unfold processFile, check_flags. by rewrite Ht, Hc.
Qed.

(** Without [-c] the flags cannot conflict. *)
Lemma flags_conflict_named (c : flags) : stdout c = false → flags_conflict c = None.
Proof. intros Hs. unfold flags_conflict. by rewrite Hs. Qed.

(** The name of the output does not depend on the world, and deriving it
    only prints. *)
Lemma output_name_indep (c : flags) (inFilePath : string) (w w0 : world) :
  (output_name c inFilePath w).1 = (output_name c inFilePath w0).1.
Proof.
  unfold output_name. run_M.
  destruct (decompress c); [|by destruct (HasSuffix _ _)].
  destruct (Split inFilePath) as [d f].
  destruct (HasSuffix f _); [|done]. by destruct (_ <? _)%nat.
Qed.

Lemma output_name_frame (c : flags) (inFilePath : string) (w w' : world) r :
  output_name c inFilePath w = (r, w') →
  w_fs w' = w_fs w ∧ w_denied w' = w_denied w ∧ w_stdin w' = w_stdin w ∧
  w_stdout w' = w_stdout w ∧ w_trace w' = w_trace w.
Proof.
  unfold output_name. run_M.
  destruct (decompress c).
  - destruct (Split inFilePath) as [d f].
    destruct (HasSuffix f _).
    + destruct (_ <? _)%nat; by intros [= _ <-].
    + by intros [= _ <-].
  - destruct (HasSuffix _ _); by intros [= _ <-].
Qed.

Lemma SplitN_Join (s : string) :
  s ≠ "" → Join (SplitN s "." (Z.of_nat (len s))) "." = s.
Proof.
  intros Hs. unfold SplitN.
  destruct s as [|a s]; [done|].
  replace (Z.of_nat (len (String a s)) =? 0) with false
    by (symmetry; apply Z.eqb_neq; unfold len; cbn; lia).
  apply (Join_split_go "." _ "").
Qed.

(** The output never has the name of the input. *)
Lemma output_name_neq (c : flags) (inFilePath out : string) (w : world) :
  (output_name c inFilePath w).1 = Ok out → out ≠ inFilePath.
Proof.
  unfold output_name. run_M. intros Hout Heq.
  assert (Hlen : len out = len inFilePath) by by rewrite Heq.
  clear Heq. destruct (decompress c).
  - pose proof (Split_app inFilePath) as Hsp.
    destruct (Split inFilePath) as [d f]. cbn in Hsp.
    destruct (HasSuffix f _).
    + destruct (_ <? _)%nat eqn:Hlt; cbn in Hout; [|done].
      injection Hout as <-. apply Nat.ltb_lt in Hlt.
      assert (Hf : f ≠ "") by (intros ->; cbn in Hlt; lia).
      pose proof (SplitN_Join f Hf) as HJ.
      pose proof (Join_init_lt (SplitN f "." (Z.of_nat (len f))) ".") as Hi.
      rewrite HJ in Hi. rewrite <- Hsp, !len_app in Hlen.
      assert (0 < len f)%nat by lia.
      assert (0 < len ".")%nat by (cbn; lia).
      specialize (Hi ltac:(done) ltac:(done)). lia.
    + cbn in Hout. injection Hout as <-. rewrite <- Hsp, !len_app in Hlen.
      unfold len in *. cbn in Hlen. lia.
  - destruct (HasSuffix _ _); cbn in Hout; [done|].
    injection Hout as <-. rewrite !len_app in Hlen.
    unfold len in *. cbn in Hlen. lia.
Qed.

(** Reading the input of a job. *)
Lemma open_input_run (inFilePath : string) (w : world) (data : bytes) :
  input_bytes w inFilePath = Some data →
  ∃ h w1,
    open_input inFilePath w = (Ok h, w1) ∧
    w_fs w1 = w_fs w ∧ w_denied w1 = w_denied w ∧ w_stdin w1 = w_stdin w ∧
    w_stdout w1 = w_stdout w ∧ w_stderr w1 = w_stderr w ∧
    w_trace w1 =
      w_trace w ++ (if decide (inFilePath = "-") then [] else [(OpOpen, inFilePath)]) ∧
    ∀ w2, w_stdin w2 = w_stdin w →
      ∃ w3, read_all h w2 = (Ok data, w3) ∧
        w_fs w3 = w_fs w2 ∧ w_denied w3 = w_denied w2 ∧
        w_stdout w3 = w_stdout w2 ∧ w_stderr w3 = w_stderr w2 ∧
        w_trace w3 = w_trace w2.
Proof.
  unfold input_bytes, open_input.
  destruct (decide (inFilePath = "-")) as [->|Hne].
  - intros [= <-]. exists Stdin, w. run_M. rewrite app_nil_r.
    repeat split; try done.
    intros w2 Hw2. exists (set_stdin [] w2). cbn. by rewrite Hw2.
  - rewrite os_Open_run.
    destruct (w_denied w OpOpen inFilePath); [done|].
    destruct (w_fs w !! inFilePath) as [[d|]|]; try done.
    intros [= <-]. eexists _, _. split; [done|]. wsimpl.
    repeat split; try done.
    intros w2 _. exists w2. by cbn.
Qed.

(** A transfer whose input can be read, whose output can be created and
    whose codec step succeeds: what it writes and where. *)
Lemma transfer_ok (c : flags) (inFilePath out : string) (w : world) (data : bytes) :
  input_bytes w inFilePath = Some data →
  (stdout c = false →
   w_denied w OpCreate out = false ∧ w_fs w !! out ≠ Some Dir) →
  (if decompress c then (bz_decode data).2 = None
   else bz_new_writer (level c) = None) →
  ∃ w',
    transfer c inFilePath out w = (Ok tt, w') ∧
    w_denied w' = w_denied w ∧
    (let payload :=
       if decompress c then (bz_decode data).1 else bz_encode (level c) data in
     if stdout c then w_fs w' = w_fs w ∧ w_stdout w' = w_stdout w ++ payload
     else w_fs w' = <[out := File payload]> (w_fs w) ∧ w_stdout w' = w_stdout w) ∧
    w_stderr w' =
      w_stderr w ++
      (if decompress c then
         if verbose c && negb (stdout c) then [DiagDone inFilePath] else []
       else
         if verbose c then
           [DiagRatio inFilePath (Z.of_nat (length data))
              (bz_out_offset (level c) data)]
         else []) ∧
    new_calls w w' =
      (if decide (inFilePath = "-") then [] else [(OpOpen, inFilePath)]) ++
      (if stdout c then [] else [(OpCreate, out)]).
Proof.
  intros Hin Hcreate Hcodec.
  destruct (open_input_run _ _ _ Hin)
    as (h & w1 & Hopen & Hfs1 & Hden1 & Hsi1 & Hso1 & Hse1 & Htr1 & Hread).
  unfold transfer, decompress_transfer, compress_transfer, open_output,
    write_output.
  destruct (decompress c).
  - (* decompression *)
    run_M. rewrite Hopen.
    destruct (Hread w1 Hsi1) as (w3 & -> & Hfs3 & Hden3 & Hso3 & Hse3 & Htr3).
    cbn [reader_yield]. destruct (bz_decode data) as [plain err].
    cbn in Hcodec. subst err.
    destruct (stdout c) eqn:Hso.
    + rewrite andb_false_r. eexists. split; [done|]. wsimpl.
      rewrite app_nil_r. repeat split; try congruence.
      apply new_calls_app. wsimpl. by rewrite app_nil_r, Htr3, Htr1.
    + destruct (Hcreate eq_refl) as [Hden Hnd].
      rewrite os_Create_run, Hden3, Hden1, Hden, Hfs3, Hfs1.
      assert (Hw : ∀ x : result unit * world,
        match w_fs w !! out with
        | Some Dir => x
        | _ => (Ok tt, set_fs (insert out (File []))
                         (add_trace (OpCreate, out) w3))
        end = (Ok tt, set_fs (insert out (File []))
                         (add_trace (OpCreate, out) w3))).
      { intros x. by destruct (w_fs w !! out) as [[]|]. }
      rewrite Hw. unfold write_file. run_M. rewrite andb_true_r.
      destruct (verbose c); eexists; (split; [done|]); wsimpl;
        rewrite ?app_nil_r, lookup_insert_eq, insert_insert_eq, app_nil_l;
        repeat split; try congruence.
      all: apply new_calls_app; wsimpl; rewrite Htr3, Htr1, <- app_assoc; done.
  - (* compression *)
    run_M. rewrite Hopen. rewrite Hcodec.
    destruct (stdout c) eqn:Hso.
    + destruct (Hread w1 Hsi1) as (w3 & -> & Hfs3 & Hden3 & Hso3 & Hse3 & Htr3).
      destruct (verbose c); eexists; (split; [done|]); wsimpl;
        rewrite ?app_nil_r; repeat split; try congruence.
      all: apply new_calls_app; wsimpl; by rewrite ?app_nil_r, Htr3, Htr1.
    + destruct (Hcreate eq_refl) as [Hden Hnd].
      rewrite os_Create_run, Hden1, Hden, Hfs1.
      assert (Hw : ∀ x : result unit * world,
        match w_fs w !! out with
        | Some Dir => x
        | _ => (Ok tt, set_fs (insert out (File []))
                         (add_trace (OpCreate, out) w1))
        end = (Ok tt, set_fs (insert out (File []))
                         (add_trace (OpCreate, out) w1))).
      { intros x. by destruct (w_fs w !! out) as [[]|]. }
      rewrite Hw.
      edestruct (Hread (set_fs (insert out (File [])) (add_trace (OpCreate, out) w1)))
        as (w3 & -> & Hfs3 & Hden3 & Hso3 & Hse3 & Htr3); [done|].
      wsimpl. unfold write_file. run_M.
      destruct (verbose c); eexists; (split; [done|]); wsimpl;
        rewrite ?app_nil_r, Hfs3; wsimpl;
        rewrite lookup_insert_eq, insert_insert_eq, app_nil_l;
        repeat split; try congruence.
      all: apply new_calls_app; wsimpl; rewrite Htr3, Htr1, <- app_assoc; done.
Qed.

(** ** C1: compressing and decompressing gives the input back *)

(** C1. With a codec that accepts the levels 1 to 9 and whose decoder
    inverts its encoder at each of them, a compress transfer of an input holding [X] succeeds and writes
    some bytes [Y], and every decompress transfer of an input holding [Y]
    succeeds and writes exactly [X]; input and output may each be a file or
    a standard stream. *)
Theorem C1_round_trip
    (cz cd : flags) (inz outz ind outd : string) (wz : world) (X : bytes) :
  (∀ l x, 1 ≤ l ≤ 9 →
     bz_new_writer l = None ∧ bz_decode (bz_encode l x) = (x, None)) →
  decompress cz = false → 1 ≤ level cz ≤ 9 → decompress cd = true →
  input_bytes wz inz = Some X →
  can_create cz outz wz →
  ∃ wz' Y,
    transfer cz inz outz wz = (Ok tt, wz') ∧
    wrote cz outz wz wz' Y ∧
    ∀ wd, input_bytes wd ind = Some Y → can_create cd outd wd →
      ∃ wd', transfer cd ind outd wd = (Ok tt, wd') ∧ wrote cd outd wd wd' X.
Proof.
  intros Hcodec Hz Hl Hd Hin Hcr.
  destruct (Hcodec (level cz) X Hl) as [Hnw Hdec].
  destruct (transfer_ok cz inz outz wz X Hin Hcr) as (wz' & Hrun & _ & Hw & _).
  { by rewrite Hz. }
  rewrite Hz in Hw. cbn in Hw.
  exists wz', (bz_encode (level cz) X). split; [done|]. split.
  { unfold wrote. destruct (stdout cz); [by destruct Hw|].
    destruct Hw as [-> _]. by rewrite lookup_insert_eq. }
  intros wd Hind Hcrd.
  destruct (transfer_ok cd ind outd wd _ Hind Hcrd) as (wd' & Hrund & _ & Hwd & _).
  { by rewrite Hd, Hdec. }
  rewrite Hd, Hdec in Hwd. cbn in Hwd.
  exists wd'. split; [done|].
  unfold wrote. destruct (stdout cd); [by destruct Hwd|].
  destruct Hwd as [-> _]. by rewrite lookup_insert_eq.
Qed.

(** A transfer changes no file but its output. *)
Lemma transfer_frame (c : flags) (inFilePath out : string) :
  frames (same_but out) (transfer c inFilePath out).
Proof.
  unfold transfer, decompress_transfer, compress_transfer, open_output,
    write_output, open_input.
  frames_with ltac:(intros; apply same_but_insert).
Qed.

(** A job makes no directory. *)
Lemma processFile_no_new_dir (c : flags) (inFilePath : string) :
  frames no_new_dir (processFile c inFilePath).
Proof.
  unfold processFile, check_flags, test_file, resolve, output_name,
    check_output, transfer, decompress_transfer, compress_transfer,
    remove_original, open_output, write_output, open_input.
  frames_with ltac:(intros;
    first [apply no_new_dir_insert_file | apply no_new_dir_delete]).
Qed.

(** ** C6: the original file after a successful transfer *)

(** C6. After a compress or decompress transfer that succeeded, the job tries
    to remove its input exactly when the output is a named file, [-k] is not
    set and the input is not "-".  When it does not try, the job succeeds and
    the world is as the transfer left it.  When it tries and the removal goes
    through, the input is gone and the job succeeds; when the removal is
    refused or the file is no longer there, the job fails although the
    transfer succeeded. *)
Theorem C6_original_removed
    (c : flags) (inFilePath out : string) (w w1 w2 : world) :
  test c = false → flags_conflict c = None →
  resolve c inFilePath w = (Ok out, w1) →
  transfer c inFilePath out w1 = (Ok tt, w2) →
  ∃ r w3,
    processFile c inFilePath w = (r, w3) ∧
    ((OpRemove, inFilePath) ∈ new_calls w2 w3 ↔
     stdout c = false ∧ keep c = false ∧ inFilePath ≠ "-") ∧
    (¬ (stdout c = false ∧ keep c = false ∧ inFilePath ≠ "-") →
     r = Ok tt ∧ w3 = w2) ∧
    (stdout c = false → keep c = false → inFilePath ≠ "-" →
     (∀ d, w_fs w2 !! inFilePath = Some (File d) →
           w_denied w2 OpRemove inFilePath = false →
           r = Ok tt ∧ w_fs w3 = delete inFilePath (w_fs w2)) ∧
     (w_denied w2 OpRemove inFilePath = true ∨ w_fs w2 !! inFilePath = None →
      ∃ e, r = Err e ∧ w_fs w3 = w_fs w2)).
Proof.
  intros Ht Hc Hres Htr.
  rewrite processFile_run by done. run_M. rewrite Hres, Htr.
  unfold remove_original.
  destruct (stdout c) eqn:Hso; cbn [negb andb].
  { eexists _, _. split; [done|]. unfold new_calls. rewrite drop_all.
    split; [|split]; try done.
    split; [by intros ?%elem_of_nil|]. by intros [[=] _]. }
  destruct (keep c) eqn:Hk; cbn [negb andb].
  { eexists _, _. split; [done|]. unfold new_calls. rewrite drop_all.
    split; [|split]; try done.
    split; [by intros ?%elem_of_nil|]. by intros (_ & [=] & _). }
  destruct (bool_decide_reflect (inFilePath = "-")) as [->|Hne]; cbn [negb].
  { eexists _, _. split; [done|]. unfold new_calls. rewrite drop_all.
    split; [|split]; try done.
    split; [by intros ?%elem_of_nil|]. by intros (_ & _ & ?). }
  rewrite os_Remove_run.
  assert (Hnc : ∀ f, new_calls w2 (set_fs f (add_trace (OpRemove, inFilePath) w2))
                     = [(OpRemove, inFilePath)]) by (intros; by apply new_calls_app).
  assert (Hnc' : new_calls w2 (add_trace (OpRemove, inFilePath) w2)
                 = [(OpRemove, inFilePath)]) by by apply new_calls_app.
  destruct (w_denied w2 OpRemove inFilePath) eqn:Hden.
  { eexists _, _. split; [done|]. rewrite Hnc'.
    split; [|split].
    - split; [done|]. intros _. by apply list_elem_of_singleton.
    - intros []. done.
    - intros _ _ _. split; [done|]. intros _. by eexists. }
  destruct (w_fs w2 !! inFilePath) as [[d|]|] eqn:Hfs.
  - eexists _, _. split; [done|]. rewrite Hnc.
    split; [|split].
    + split; [done|]. intros _. by apply list_elem_of_singleton.
    + intros []. done.
    + intros _ _ _. split; [done|]. by intros [[=]|[=]].
  - destruct (has_entry (w_fs w2) inFilePath);
      eexists _, _; (split; [done|]); rewrite ?Hnc, ?Hnc';
      (split; [|split]).
    all: try (split; [done|]; intros _; by apply list_elem_of_singleton).
    all: try (intros []; done).
    all: intros _ _ _; split; [done|]; by intros [[=]|[=]].
  - eexists _, _. split; [done|]. rewrite Hnc'.
    split; [|split].
    + split; [done|]. intros _. by apply list_elem_of_singleton.
    + intros []. done.
    + intros _ _ _. split; [done|]. intros _. by eexists.
Qed.

(** ** C5: an output file that is already there *)

(** Resolving the names of a job on a regular file that writes a named file:
    the input is looked at, the output name derived and checked. *)
Lemma resolve_named (c : flags) (inFilePath : string) (w : world) (d : bytes) :
  stdin c = false → stdout c = false → suffix c ≠ "" →
  w_fs w !! inFilePath = Some (File d) →
  resolve c inFilePath w =
    (outFilePath ← output_name c inFilePath;
     check_output c outFilePath;; mret outFilePath)
      (add_trace (OpLstat, inFilePath) w).
Proof.
  intros Hin Hout Hs Hfs. unfold resolve. rewrite Hin, Hout. run_M.
  rewrite os_Lstat_run, Hfs. cbn [IsDir negb].
  by destruct (decide (suffix c = "")).
Qed.

(** C5. A job on a regular file that writes a named file whose name is
    taken.  Without [-f] the job fails and the file system is unchanged:
    neither the output nor the input is touched.  With [-f] and a regular
    file under that name: if the system refuses the removal, that error is
    the error of the job and the file system is unchanged; otherwise the old
    output is removed while the names are resolved, so before the transfer
    creates and writes the output, and after a successful job the input is
    gone unless [-k] is set, in which case it is as it was. *)
Theorem C5_existing_output
    (c : flags) (inFilePath out : string) (w : world) (d : bytes) (n : node) :
  test c = false → stdin c = false → stdout c = false → suffix c ≠ "" →
  w_fs w !! inFilePath = Some (File d) →
  (output_name c inFilePath w).1 = Ok out →
  w_fs w !! out = Some n →
  ∃ r w',
    processFile c inFilePath w = (r, w') ∧
    (force c = false →
     r = Err (Errorf ("outFile " +:+ out +:+ " exists. use -f to overwrite")) ∧
     w_fs w' = w_fs w) ∧
    (force c = true → IsDir n = false →
     (w_denied w OpRemove out = true →
      r = Err (PathError "remove" out EACCES) ∧ w_fs w' = w_fs w) ∧
     (w_denied w OpRemove out = false →
      ∃ w1,
        resolve c inFilePath w = (Ok out, w1) ∧
        w_fs w1 = delete out (w_fs w) ∧
        new_calls w w1 =
          [(OpLstat, inFilePath); (OpLstat, out); (OpRemove, out)] ∧
        processFile c inFilePath w =
          (transfer c inFilePath out;; remove_original c inFilePath) w1 ∧
        (r = Ok tt → keep c = false → inFilePath ≠ "-" →
         w_fs w' !! inFilePath = None) ∧
        (r = Ok tt → keep c = true →
         w_fs w' !! inFilePath = Some (File d)))).
Proof.
  intros Ht Hin Hso Hs Hfs Hname Hout.
  pose proof (output_name_neq _ _ _ _ Hname) as Hneq.
  set (w0 := add_trace (OpLstat, inFilePath) w).
  rewrite (output_name_indep _ _ w w0) in Hname.
  destruct (output_name c inFilePath w0) as [r0 w0'] eqn:Hon.
  cbn in Hname. subst r0.
  destruct (output_name_frame _ _ _ _ _ Hon) as (Hf0 & Hd0 & _ & _ & Ht0).
  assert (Hres : resolve c inFilePath w =
                 (check_output c out;; mret out) w0').
  { rewrite (resolve_named _ _ _ d) by done. fold w0. run_M. by rewrite Hon. }
  subst w0. wsimpl.
  unfold check_output in Hres. run_M in Hres.
  rewrite os_Lstat_run, Hf0, Hout in Hres.
  destruct (processFile c inFilePath w) as [r w'] eqn:Hpf.
  rewrite processFile_run in Hpf by auto using flags_conflict_named.
  run_M in Hpf. exists r, w'. split; [done|].
  destruct (force c) eqn:Hforce; cbn [negb] in Hres.
  2:{ rewrite Hres in Hpf. injection Hpf as <- <-. wsimpl.
      split; [by rewrite Hf0|]. done. }
  split; [done|]. intros _ Hn. rewrite Hn in Hres.
  rewrite os_Remove_run in Hres. wsimpl. rewrite Hd0, Hf0, Hout in Hres.
  destruct n as [old|]; [clear Hn|done].
  destruct (w_denied w OpRemove out) eqn:Hden.
  { rewrite Hres in Hpf. injection Hpf as <- <-. wsimpl.
    split; [|done]. intros _. by rewrite Hf0. }
  split; [done|]. intros _.
  set (w1 := set_fs (delete out) (add_trace (OpRemove, out)
               (add_trace (OpLstat, out) w0'))) in *.
  exists w1. split; [done|].
  split; [subst w1; wsimpl; by rewrite Hf0|].
  split.
  { apply new_calls_app. subst w1. wsimpl. rewrite Ht0.
    by rewrite <- !app_assoc. }
  rewrite Hres in Hpf. split; [done|].
  destruct (transfer c inFilePath out w1) as [[[]|e] w2] eqn:Htr;
    [|injection Hpf as <- <-; by split].
  destruct (transfer_frame _ _ _ _ _ _ Htr) as (Hd2 & Hf2 & _).
  assert (Hin2 : w_fs w2 !! inFilePath = Some (File d)).
  { rewrite Hf2 by done. subst w1. wsimpl.
    rewrite lookup_delete_ne by done. by rewrite Hf0. }
  unfold remove_original in Hpf. rewrite Hso in Hpf. cbn [negb andb] in Hpf.
  split.
  - intros -> Hk Hne. rewrite Hk in Hpf. cbn [negb andb] in Hpf.
    rewrite bool_decide_eq_false_2 in Hpf by done. cbn [negb] in Hpf.
    rewrite os_Remove_run, Hin2 in Hpf.
    destruct (w_denied w2 OpRemove inFilePath); [done|].
    injection Hpf as <-. wsimpl. by rewrite lookup_delete_eq.
  - intros -> Hk. rewrite Hk in Hpf. cbn [negb andb] in Hpf.
    by injection Hpf as <-.
Qed.

(** ** C4: decompressing a file without the suffix *)

(** Whatever a job does after it has printed a line, the line stays. *)
Lemma logs_ret {A} (a : A) : logs (mret a).
Proof. by intros w r w' [= _ <-]. Qed.

Lemma logs_fail {A} (e : error) : logs (@fail A e).
Proof. by intros w r w' [= _ <-]. Qed.

Lemma logs_bind {A B} (m : M A) (f : A → M B) :
  logs m → (∀ a, logs (f a)) → logs (m ≫= f).
Proof.
  intros Hm Hf w r w'. unfold mbind, M_bind.
  destruct (m w) as [[a|e] w1] eqn:E.
  - intros Hfa. etrans; [by eapply Hm|by eapply Hf].
  - intros [= _ <-]. by eapply Hm.
Qed.

Lemma logs_try {A} (m : M A) : logs m → logs (try m).
Proof.
  intros Hm w r w'. unfold try. destruct (m w) as [r1 w1] eqn:E.
  intros [= _ <-]. by eapply Hm.
Qed.

Lemma logs_eprint (d : diag) : logs (eprint d).
Proof. intros w r w' [= _ <-]. cbn. by apply prefix_app_r. Qed.

Lemma logs_add_stdout (b : bytes) : logs (modify (add_stdout b)).
Proof. by intros w r w' [= _ <-]. Qed.

Lemma logs_os_stat (op : osop) (name p : string) : logs (os_stat op name p).
Proof. intros w r w'. rewrite os_stat_run. by intros [= _ <-]. Qed.

Lemma logs_os_Open (p : string) : logs (os_Open p).
Proof.
  intros w r w'. rewrite os_Open_run.
  destruct (w_denied w OpOpen p); [|destruct (w_fs w !! p)];
    by intros [= _ <-].
Qed.

Lemma logs_read_all (h : handle) : logs (read_all h).
Proof. intros w r w'. destruct h as [|p [d|]]; cbn; by intros [= _ <-]. Qed.

Lemma logs_os_Create (p : string) : logs (os_Create p).
Proof.
  intros w r w'. rewrite os_Create_run.
  destruct (w_denied w OpCreate p); [|destruct (w_fs w !! p) as [[]|]];
    by intros [= _ <-].
Qed.

Lemma logs_write_file (p : string) (b : bytes) : logs (write_file p b).
Proof. by intros w r w' [= _ <-]. Qed.

Lemma logs_os_Remove (p : string) : logs (os_Remove p).
Proof.
  intros w r w'. rewrite os_Remove_run.
  destruct (w_denied w OpRemove p);
    [|destruct (w_fs w !! p) as [[]|]; [|destruct (has_entry _ _)|]];
    by intros [= _ <-].
Qed.

Ltac logs_tac :=
  repeat first
    [ match goal with
      | |- logs (if ?b then _ else _) => destruct b
      | |- logs (match ?x with _ => _ end) => destruct x
      | |- ∀ _, _ => intro; cbn beta
      end
    | apply logs_ret | apply logs_fail | apply logs_eprint
    | apply logs_add_stdout
    | apply logs_os_stat | apply logs_os_Open | apply logs_read_all
    | apply logs_os_Create | apply logs_write_file | apply logs_os_Remove
    | apply logs_try | apply logs_bind ].

(** What follows the naming of the output only adds to standard error. *)
Lemma logs_after_naming (c : flags) (inFilePath out : string) :
  logs (check_output c out;; transfer c inFilePath out;;
        remove_original c inFilePath).
Proof.
  unfold check_output, transfer, decompress_transfer, compress_transfer,
    remove_original, open_output, write_output, open_input.
  logs_tac.
Qed.

(** What the check of the output name does (lines 173-185). *)
Lemma check_output_run (c : flags) (out : string) (w : world) :
  check_output c out w =
    match w_fs w !! out with
    | None => (Ok tt, add_trace (OpLstat, out) w)
    | Some f =>
        if negb (force c) then
          (Err (Errorf ("outFile " +:+ out +:+ " exists. use -f to overwrite")),
           add_trace (OpLstat, out) w)
        else if IsDir f then
          (Err (Errorf ("outFile " +:+ out +:+ " is a directory")),
           add_trace (OpLstat, out) w)
        else os_Remove out (add_trace (OpLstat, out) w)
    end.
Proof.
  unfold check_output. run_M. rewrite os_Lstat_run.
  destruct (w_fs w !! out) as [f|]; [|done].
  destruct (force c); [|done]. by destruct (IsDir f).
Qed.

(** A decompression to a named file that succeeded could read its input and
    create its output, and the decoder found no error. *)
Lemma decompress_ok_inv (c : flags) (inFilePath out : string) (w w' : world) :
  decompress c = true → stdout c = false →
  transfer c inFilePath out w = (Ok tt, w') →
  ∃ data,
    input_bytes w inFilePath = Some data ∧
    w_denied w OpCreate out = false ∧ w_fs w !! out ≠ Some Dir ∧
    (bz_decode data).2 = None.
Proof.
  intros Hd Hso. unfold transfer, decompress_transfer, open_output,
    write_output, open_input, input_bytes, write_file, reader_yield.
  rewrite Hd, Hso. run_M.
  destruct (decide (inFilePath = "-")) as [->|Hdash].
  - cbn [read_all]. rewrite os_Create_run. wsimpl.
    destruct (w_denied w OpCreate out); [done|].
    exists (w_stdin w).
    destruct (w_fs w !! out) as [[old|]|] eqn:Hout; try done;
      cbn [reader_yield]; destruct (bz_decode (w_stdin w)) as [plain [e|]];
      done.
  - rewrite os_Open_run.
    destruct (w_denied w OpOpen inFilePath).
    { rewrite os_Create_run. wsimpl.
      destruct (w_denied w OpCreate out); [done|].
      by destruct (w_fs w !! out) as [[old|]|]. }
    destruct (w_fs w !! inFilePath) as [[data|]|] eqn:Hin; cbn [read_all];
      run_M; rewrite os_Create_run; wsimpl;
      (destruct (w_denied w OpCreate out); [done|]);
      try (by destruct (w_fs w !! out) as [[old|]|]).
    exists data.
    destruct (w_fs w !! out) as [[old|]|] eqn:Hout; try done;
      cbn [reader_yield]; destruct (bz_decode data) as [plain [e|]]; done.
Qed.

(** The check of the output name goes through exactly when nothing stands
    in the way, and then the name is free and every other path is as it
    was. *)
Lemma check_output_ok (c : flags) (out : string) (w w1 : world)
    (r : result unit) :
  check_output c out w = (r, w1) →
  (r = Ok tt ↔ output_clear c out w) ∧
  (r = Ok tt →
   same_but out (w_fs w) (w_fs w1) ∧ w_fs w1 !! out = None ∧
   w_denied w1 = w_denied w ∧ w_stdin w1 = w_stdin w ∧
   w_stderr w1 = w_stderr w).
Proof.
  rewrite check_output_run. unfold output_clear.
  destruct (w_fs w !! out) as [[old|]|] eqn:Hout.
  - destruct (force c); cbn [negb IsDir].
    + rewrite os_Remove_run. wsimpl. rewrite Hout.
      destruct (w_denied w OpRemove out); intros [= <- <-].
      * split; [split; [done|by intros [_ ?]]|done].
      * split; [done|]. intros _. wsimpl.
        rewrite lookup_delete_eq. repeat split; try done.
        intros q Hq. by rewrite lookup_delete_ne.
    + intros [= <- <-]. split; [split; [done|by intros [? _]]|done].
  - destruct (force c); cbn [negb IsDir]; intros [= <- <-]; by split.
  - intros [= <- <-]. by split.
Qed.

(** The transfer and the removal of the original, for a decompression of a
    regular file to a named file: when they succeed and what they leave. *)
Lemma decompress_tail (c : flags) (inFilePath out : string) (w1 w' : world)
    (d : bytes) (r : result unit) :
  stdout c = false → decompress c = true → out ≠ inFilePath →
  w_fs w1 !! inFilePath = Some (File d) → w_fs w1 !! out ≠ Some Dir →
  let src := if decide (inFilePath = "-") then w_stdin w1 else d in
  let kept := keep c || bool_decide (inFilePath = "-") in
  (transfer c inFilePath out;; remove_original c inFilePath) w1 = (r, w') →
  (r = Ok tt ↔
   (inFilePath ≠ "-" → w_denied w1 OpOpen inFilePath = false) ∧
   w_denied w1 OpCreate out = false ∧
   (bz_decode src).2 = None ∧
   (kept = false → w_denied w1 OpRemove inFilePath = false)) ∧
  (r = Ok tt →
   w_fs w' =
     (if kept then id else delete inFilePath)
       (<[out := File (bz_decode src).1]> (w_fs w1)) ∧
   w_stderr w' =
     w_stderr w1 ++ (if verbose c then [DiagDone inFilePath] else [])).
Proof.
  intros Hso Hd Hneq Hfs Hnd src kept. run_M.
  assert (Hsrc : ∀ data, input_bytes w1 inFilePath = Some data ↔
            (inFilePath ≠ "-" → w_denied w1 OpOpen inFilePath = false) ∧
            data = src).
  { intros data. unfold input_bytes. subst src.
    destruct (decide (inFilePath = "-")) as [Heq|Hne].
    - split; [by intros [= <-]|by intros [_ ->]].
    - rewrite Hfs. destruct (w_denied w1 OpOpen inFilePath).
      + split; [done|]. intros [Hop _]. by specialize (Hop Hne).
      + split; [by intros [= <-]|by intros [_ ->]]. }
  destruct (transfer c inFilePath out w1) as [[[]|e] w2] eqn:Htr.
  2:{ intros [= <- <-]. split; [|done]. split; [done|].
      intros (Hop & Hcr & Hdec & _).
      destruct (transfer_ok c inFilePath out w1 src) as (w2' & Htr' & _).
      - by apply Hsrc.
      - done.
      - by rewrite Hd.
      - by rewrite Htr in Htr'. }
  destruct (decompress_ok_inv _ _ _ _ _ Hd Hso Htr)
    as (data & Hib & Hcr & _ & Hdec).
  apply Hsrc in Hib as [Hop ->].
  destruct (transfer_ok c inFilePath out w1 src)
    as (w2' & Htr' & Hden2 & Hw2 & Herr2 & _).
  { by apply Hsrc. }
  { done. }
  { by rewrite Hd. }
  rewrite Htr in Htr'. injection Htr' as <-.
  rewrite Hd, Hso in Hw2, Herr2. cbn in Hw2. destruct Hw2 as [Hfs2 _].
  rewrite andb_true_r in Herr2.
  unfold remove_original. rewrite Hso. cbn [negb andb].
  subst kept. destruct (keep c); cbn [negb andb orb].
  { intros [= <- <-]. by rewrite Hfs2, Herr2. }
  destruct (bool_decide (inFilePath = "-")); cbn [negb].
  { intros [= <- <-]. by rewrite Hfs2, Herr2. }
  rewrite os_Remove_run, Hden2. wsimpl.
  rewrite Hfs2, lookup_insert_ne, Hfs by done.
  destruct (w_denied w1 OpRemove inFilePath); intros [= <- <-].
  - split; [|done]. split; [done|]. intros (_ & _ & _ & Hrm).
    by specialize (Hrm eq_refl).
  - wsimpl. by rewrite Hfs2, Herr2.
Qed.

(** C4, as the program has it.  Decompressing a regular file whose name does
    not end in the suffix takes the input name followed by ".out" as the
    output name and prints the two warning lines, which are on standard
    error however the job ends; this is no failure.  The job succeeds
    exactly when nothing stands in the way of that output (the name is
    free, or [-f] is set and a regular file that may be removed is there),
    the system lets the job open the input, create the output and remove
    the input, and the input decodes.  Whenever it succeeds, the output
    holds the decoded bytes and the input is removed, unless [-k] is set,
    in which case it is as it was.  For the file named "-" the bytes
    decoded are those of standard input, and the file is never removed. *)
Theorem C4_missing_suffix_falls_back
    (c : flags) (inFilePath : string) (w : world) (d : bytes) :
  test c = false → stdin c = false → stdout c = false → decompress c = true →
  suffix c ≠ "" →
  w_fs w !! inFilePath = Some (File d) →
  HasSuffix (Split inFilePath).2 ("." +:+ suffix c) = false →
  let out := inFilePath +:+ ".out" in
  let src := if decide (inFilePath = "-") then w_stdin w else d in
  let kept := keep c || bool_decide (inFilePath = "-") in
  let warning :=
    [DiagNoSuffix inFilePath (suffix c); DiagCantGuess inFilePath] in
  output_name c inFilePath w =
    (Ok out,
     add_stderr (DiagCantGuess inFilePath)
       (add_stderr (DiagNoSuffix inFilePath (suffix c)) w)) ∧
  (∀ r w', processFile c inFilePath w = (r, w') →
     w_stderr w ++ warning `prefix_of` w_stderr w') ∧
  ((∃ w', processFile c inFilePath w = (Ok tt, w')) ↔
   output_clear c out w ∧
   (inFilePath ≠ "-" → w_denied w OpOpen inFilePath = false) ∧
   w_denied w OpCreate out = false ∧
   (bz_decode src).2 = None ∧
   (kept = false → w_denied w OpRemove inFilePath = false)) ∧
  (∀ w', processFile c inFilePath w = (Ok tt, w') →
     w_fs w' !! out = Some (File (bz_decode src).1) ∧
     w_fs w' !! inFilePath = (if kept then Some (File d) else None) ∧
     (∀ q, q ≠ out → q ≠ inFilePath → w_fs w' !! q = w_fs w !! q) ∧
     w_stderr w' =
       w_stderr w ++ warning ++
       (if verbose c then [DiagDone inFilePath] else [])).
Proof.
  intros Ht Hin Hso Hd Hs Hfs Hsuf out src kept warning.
  assert (Hname : ∀ w0, output_name c inFilePath w0 =
    (Ok out, add_stderr (DiagCantGuess inFilePath)
               (add_stderr (DiagNoSuffix inFilePath (suffix c)) w0))).
  { intros w0. unfold output_name. rewrite Hd.
    pose proof (Split_app inFilePath) as Hsp.
    destruct (Split inFilePath) as [dir file]. cbn in Hsuf, Hsp.
    rewrite Hsuf. run_M. subst out. by rewrite <- Hsp, str_app_assoc. }
  split; [apply Hname|].
  assert (Hneq : out ≠ inFilePath).
  { eapply (output_name_neq c _ _ w). by rewrite Hname. }
  rewrite processFile_run by auto using flags_conflict_named.
  run_M. rewrite (resolve_named _ _ _ d) by done.
  run_M. rewrite Hname.
  set (w0 := add_stderr _ (add_stderr _ (add_trace _ w))).
  assert (Hse0 : w_stderr w0 = w_stderr w ++ warning).
  { subst w0 warning. cbn. by rewrite <- app_assoc. }
  pose proof (logs_after_naming c inFilePath out w0) as Hlogs.
  unfold logs in Hlogs. run_M in Hlogs. rewrite Hse0 in Hlogs.
  destruct (check_output c out w0) as [r1 w1] eqn:Hco.
  destruct (check_output_ok _ _ _ _ _ Hco) as [Hclear Hw1].
  assert (Hclear0 : output_clear c out w0 ↔ output_clear c out w) by done.
  rewrite Hclear0 in Hclear.
  destruct r1 as [[]|e1].
  2:{ split; [|split].
      - intros r w' Hrun. by apply (Hlogs r w').
      - split; [by intros [? [=]]|]. intros [Hc _]. by apply Hclear in Hc.
      - by intros ? [=]. }
  destruct (Hw1 eq_refl) as (Hsame & Hfree & Hden1 & Hsi1 & Hse1).
  assert (Hfs1 : w_fs w1 !! inFilePath = Some (File d)).
  { rewrite Hsame by done. subst w0. wsimpl. by rewrite Hfs. }
  destruct ((transfer c inFilePath out;; remove_original c inFilePath) w1)
    as [r2 w2] eqn:Htail.
  destruct (decompress_tail c inFilePath out w1 w2 d r2) as [Hok Hw2];
    try done.
  { by rewrite Hfree. }
  rewrite Hsi1, Hden1 in Hok. rewrite Hsi1 in Hw2.
  subst w0. wsimpl. fold src kept in Hok, Hw2.
  run_M in Htail. rewrite Htail in *.
  split; [|split].
  - intros r w' Hrun. by apply (Hlogs r w').
  - split.
    + intros [w' [= -> <-]]. split; [by apply Hclear|]. by apply Hok.
    + intros [_ Hc]. apply Hok in Hc as ->. by eexists.
  - intros w' [= -> <-]. destruct (Hw2 eq_refl) as [Hfs2 Herr2].
    rewrite Hfs2, Herr2, Hse1. destruct kept; cbn [id].
    + rewrite lookup_insert_eq, lookup_insert_ne, Hfs1 by done.
      repeat split; try done.
      * intros q Hq _. by rewrite lookup_insert_ne, Hsame.
      * subst warning. by rewrite <- !app_assoc.
    + rewrite lookup_delete_eq, lookup_delete_ne, lookup_insert_eq by done.
      repeat split; try done.
      * intros q Hq Hq'. by rewrite lookup_delete_ne, lookup_insert_ne, Hsame.
      * subst warning. by rewrite <- !app_assoc.
Qed.

End ProcessFileFacts.

(** ** The goroutines of [main] *)

(** Replacing one element of a list changes a filtered copy by that
    element. *)
Lemma filter_insert_Permutation {A} (P : A → bool) (l : list A) (i : nat) (x y : A) :
  l !! i = Some x →
  filter (λ a, P a = true) (<[i := y]> l) ++ (if P x then [x] else [])
  ≡ₚ filter (λ a, P a = true) l ++ (if P y then [y] else []).
Proof.
  revert i. induction l as [|a l IH]; intros [|i] Hi; try done.
  - simplify_eq/=. rewrite !filter_cons.
    destruct (P x) eqn:Hx, (P y) eqn:Hy;
      repeat case_decide; try congruence; rewrite ?app_nil_r; try done.
    + simpl. rewrite <- !Permutation_cons_append. apply perm_swap.
    + symmetry. apply Permutation_cons_append.
    + apply Permutation_cons_append.
  - simpl in Hi. simpl. rewrite !filter_cons.
    specialize (IH i Hi).
    case_decide; [|done]. simpl. by rewrite IH.
Qed.

Lemma filter_insert_length {A} (P : A → bool) (l : list A) (i : nat) (x y : A) :
  l !! i = Some x →
  (length (filter (λ a, P a = true) (<[i := y]> l)) + Nat.b2n (P x) =
   length (filter (λ a, P a = true) l) + Nat.b2n (P y))%nat.
Proof.
  intros Hi. pose proof (filter_insert_Permutation P l i x y Hi) as Hp.
  apply Permutation_length in Hp. rewrite !length_app in Hp.
  by destruct (P x), (P y).
Qed.

Section MainFacts.
Context `{Codec}.
Variable c : flags.

(** *** The semaphore *)

Lemma holders_initial (files : list string) (w : world) :
  holders (initial files w) = 0%nat.
Proof.
  unfold holders, initial. cbn [s_jobs].
  induction files as [|f fs IH]; [done|].
  simpl map. rewrite filter_cons. by case_decide.
Qed.

(** The channel holds one element per goroutine between its send and its
    receive, and never more than its capacity. *)
Lemma sem_invariant (files : list string) (w : world) (s : sched) :
  reachable c files w s →
  s_sem s = holders s ∧ (s_sem s ≤ capacity c)%nat.
Proof.
  unfold reachable. revert s.
  apply (rtc_ind_r (λ s, s_sem s = holders s ∧ (s_sem s ≤ capacity c)%nat)).
  - rewrite holders_initial. cbn. split; [done|lia].
  - intros s0 s1 _ Hstep [Hsem Hcap].
    inversion Hstep as [i f pr sem jobs Hi Hlt|i f pr sem jobs Hi|i f pr sem jobs Hi];
      subst; unfold holders in *; cbn [s_sem s_jobs] in *.
    + pose proof (filter_insert_length holds_slot jobs i _ (f, Running) Hi).
      cbn in *. lia.
    + pose proof (filter_insert_length holds_slot jobs i _ (f, Returning) Hi).
      cbn in *. lia.
    + pose proof (filter_insert_length holds_slot jobs i _ (f, Finished) Hi).
      cbn in *. lia.
Qed.

(** *** Jobs act on the world only *)










(** *** Every run is a run of the jobs one after the other *)






(** *** A run comes to its end *)

Lemma run_to_end (pre post : list string) (p : proc) :
  (1 ≤ capacity c)%nat →
  rtc (step c)
    (mkSched p 0 (map (λ f, (f, Finished)) pre ++ map (λ f, (f, Spawned)) post))
    (mkSched (fold_left (λ p f, job c f p) post p) 0
       (map (λ f, (f, Finished)) (pre ++ post))).
Proof.
  intros Hcap. revert pre p. induction post as [|f post IH]; intros pre p.
  - cbn. by rewrite !app_nil_r.
  - cbn [map fold_left].
    set (done_ := map (λ f, (f, Finished)) pre).
    set (todo := map (λ f, (f, Spawned)) post).
    assert (Hlook : ∀ g, (done_ ++ (f, g) :: todo) !! length done_ = Some (f, g))
      by (intros; by apply list_lookup_middle).
    assert (Hins : ∀ g g', <[length done_ := (f, g')]> (done_ ++ (f, g) :: todo)
                           = done_ ++ (f, g') :: todo).
    { intros. by rewrite insert_app_r_alt, Nat.sub_diag by done. }
    eapply rtc_l.
    { apply (step_acquire c (length done_) f); [apply Hlook|lia]. }
    rewrite Hins. eapply rtc_l.
    { apply (step_body c (length done_) f). apply Hlook. }
    rewrite Hins. eapply rtc_l.
    { apply (step_release c (length done_) f). apply Hlook. }
    rewrite Hins.
    replace (done_ ++ (f, Finished) :: todo)
      with (map (λ f, (f, Finished)) (pre ++ [f]) ++ todo)
      by (subst done_; rewrite map_app; cbn; by rewrite <- app_assoc).
    replace (pre ++ f :: post) with ((pre ++ [f]) ++ post)
      by (by rewrite <- app_assoc).
    apply IH.
Qed.

End MainFacts.

(** ** The depth given to [walk] is enough *)

Lemma deeper_dirs_mono (m m' : gmap string node) (path : string) :
  no_new_dir m m' → (deeper_dirs m' path ≤ deeper_dirs m path)%nat.
Proof.
  intros Hm. unfold deeper_dirs. apply map_subseteq_size.
  apply map_subseteq_spec. intros k n.
  rewrite !map_lookup_filter_Some. cbn. intros [Hk [Hd Hl]].
  destruct n; [done|]. split; [by apply Hm|done].
Qed.

Lemma deeper_dirs_child (m : gmap string node) (path q : string) :
  m !! q = Some Dir → (len path < len q)%nat →
  (deeper_dirs m q < deeper_dirs m path)%nat.
Proof.
  intros Hq Hlen. unfold deeper_dirs. apply map_subset_size. split.
  - apply map_subseteq_spec. intros k n.
    rewrite !map_lookup_filter_Some. cbn. intros [Hk [Hd Hl]].
    unfold len in *. repeat split; try done. lia.
  - intros Hsub. rewrite map_subseteq_spec in Hsub.
    specialize (Hsub q Dir). rewrite !map_lookup_filter_Some in Hsub. cbn in Hsub.
    unfold len in *. destruct Hsub as [_ [_ ?]]; [done|lia].
Qed.

Lemma deeper_dirs_le_count (m : gmap string node) (path : string) :
  (deeper_dirs m path ≤ dir_count m)%nat.
Proof.
  unfold deeper_dirs, dir_count. apply map_subseteq_size.
  apply map_subseteq_spec. intros k n.
  rewrite !map_lookup_filter_Some. cbn. by intros [Hk [Hd Hl]].
Qed.

Lemma len_filepath_Join (dir name : string) :
  (len dir < len (filepath_Join dir name))%nat.
Proof. unfold filepath_Join. rewrite !len_app. unfold len. cbn. lia. Qed.

Section WalkDepth.
Context `{Codec}.
Variable c : flags.

Lemma makes_no_dir_id : makes_no_dir (λ p, p).
Proof. by intros p q. Qed.

Lemma makes_no_dir_compose (F G : proc → proc) :
  makes_no_dir F → makes_no_dir G → makes_no_dir (λ p, G (F p)).
Proof. intros HF HG p. etrans; [apply HF|apply HG]. Qed.

Lemma makes_no_dir_report (path : string) (e : error) :
  makes_no_dir (report path e).
Proof. by intros p q. Qed.

Lemma makes_no_dir_run_file (path : string) : makes_no_dir (run_file c path).
Proof.
  intros p. unfold run_file.
  destruct (processFile c path (p_world p)) as [r w1] eqn:E.
  apply processFile_no_new_dir in E as (_ & Hfs & _).
  by destruct r.
Qed.

Lemma makes_no_dir_walkFn (path : string) (fi : option node) (err : option error) :
  makes_no_dir (walkFn c path fi err).
Proof.
  unfold walkFn. destruct err as [e|]; [apply makes_no_dir_report|].
  destruct fi as [n|]; [|apply makes_no_dir_id].
  destruct (negb (IsDir n)); [apply makes_no_dir_run_file|apply makes_no_dir_id].
Qed.

Lemma sys_readDirNames (path : string) (p : proc) :
  w_fs (p_world (sys (readDirNames path) p).2) = w_fs (p_world p).
Proof.
  unfold sys, readDirNames. run_M. cbn.
  by destruct (w_denied (p_world p) OpReadDir path).
Qed.

Lemma sys_os_Lstat (path : string) (p : proc) :
  sys (os_Lstat path) p =
    (match w_fs (p_world p) !! path with
     | Some n => Ok n
     | None => Err (PathError "lstat" path ENOENT)
     end,
     mkProc (add_trace (OpLstat, path) (p_world p)) (hasErrors p) (p_entries p)).
Proof. unfold sys. by rewrite os_Lstat_run. Qed.

Lemma makes_no_dir_fold {A} (body : A → proc → proc) (l : list A) :
  (∀ a, makes_no_dir (body a)) →
  makes_no_dir (λ p, fold_left (λ p a, body a p) l p).
Proof.
  intros Hb. induction l as [|a l IH]; [apply makes_no_dir_id|].
  cbn. apply (makes_no_dir_compose (body a) _ (Hb a) IH).
Qed.

Lemma makes_no_dir_walk (depth : nat) (path : string) (info : node) :
  makes_no_dir (walk c depth path info).
Proof.
  revert path info. induction depth as [|depth IH]; intros path info.
  - cbn [walk]. destruct (negb (IsDir info));
      [apply makes_no_dir_walkFn|apply makes_no_dir_id].
  - cbn [walk]. destruct (negb (IsDir info)); [apply makes_no_dir_walkFn|].
    intros p. pose proof (sys_readDirNames path p) as Hrd.
    destruct (sys (readDirNames path) p) as [[names|e] p1]; cbn in Hrd;
      rewrite <- Hrd.
    + apply (makes_no_dir_compose (walkFn c path (Some info) None));
        [apply makes_no_dir_walkFn|].
      apply makes_no_dir_fold. intros name q.
      rewrite sys_os_Lstat.
      set (q' := mkProc _ _ _).
      change (w_fs (p_world q)) with (w_fs (p_world q')).
      destruct (w_fs (p_world q') !! _) as [fi|].
      * apply IH.
      * apply makes_no_dir_walkFn.
    + apply makes_no_dir_walkFn.
Qed.

Lemma fold_left_ext_inv {A B} (f g : B → A → B) (I : B → Prop) (l : list A) (b : B) :
  I b → (∀ b a, I b → f b a = g b a ∧ I (f b a)) →
  fold_left f l b = fold_left g l b.
Proof.
  intros Hb Hfg. revert b Hb. induction l as [|a l IH]; intros b Hb; [done|].
  cbn. destruct (Hfg b a Hb) as [<- HI]. by apply IH.
Qed.

Lemma walk_S (depth : nat) (path : string) (info : node) (p : proc) :
  walk c (S depth) path info p =
    if negb (IsDir info) then walkFn c path (Some info) None p
    else
      let '(names, p) := sys (readDirNames path) p in
      match names with
      | Err e => walkFn c path (Some info) (Some e) p
      | Ok names =>
          fold_left
            (λ p name,
               let '(fileInfo, p) := sys (os_Lstat (filepath_Join path name)) p in
               match fileInfo with
               | Err e => walkFn c (filepath_Join path name) None (Some e) p
               | Ok fileInfo => walk c depth (filepath_Join path name) fileInfo p
               end)
            names (walkFn c path (Some info) None p)
      end.
Proof. reflexivity. Qed.

(** One more unit of depth changes nothing once the depth exceeds the
    number of directories the walk can still descend into. *)
Lemma walk_stable (n : nat) (path : string) (info : node) (p : proc) :
  (deeper_dirs (w_fs (p_world p)) path < n)%nat →
  walk c (S n) path info p = walk c n path info p.
Proof.
  revert path info p. induction n as [|n IH]; intros path info p Hn; [lia|].
  rewrite (walk_S (S n)), (walk_S n). destruct (negb (IsDir info)); [done|].
  pose proof (sys_readDirNames path p) as Hrd.
  destruct (sys (readDirNames path) p) as [[names|e] p1]; [|done].
  cbn in Hrd.
  pose proof (makes_no_dir_walkFn path (Some info) None p1) as Hfn.
  rewrite Hrd in Hfn.
  apply (fold_left_ext_inv _ _
           (λ q, no_new_dir (w_fs (p_world p)) (w_fs (p_world q)))); [done|].
  intros q name Hq. rewrite sys_os_Lstat.
  set (q' := mkProc _ _ _).
  change (w_fs (p_world q)) with (w_fs (p_world q')) in *.
  destruct (w_fs (p_world q') !! filepath_Join path name) as [fi|] eqn:Hfi.
  - split.
    + destruct fi as [d|]; [by destruct n|].
      apply IH.
      pose proof (deeper_dirs_child _ path _ Hfi (len_filepath_Join path name)).
      pose proof (deeper_dirs_mono _ _ path Hq). lia.
    + etrans; [exact Hq|]. apply makes_no_dir_walk.
  - split; [done|]. etrans; [exact Hq|]. apply makes_no_dir_walkFn.
Qed.

(** The depth [Walk] starts with is enough: any greater depth gives the
    same walk. *)
Lemma walk_depth_enough (k : nat) (root : string) (info : node) (p : proc) :
  walk c (S (dir_count (w_fs (p_world p))) + k) root info p =
  walk c (S (dir_count (w_fs (p_world p)))) root info p.
Proof.
  induction k as [|k IH]; [by rewrite Nat.add_0_r|].
  rewrite Nat.add_succ_r, walk_stable; [done|].
  pose proof (deeper_dirs_le_count (w_fs (p_world p)) root). lia.
Qed.

End WalkDepth.

(** ** C8 and C9: the exit status and the bound on running jobs *)

Lemma cores_level_of_digit (c : flags) : cores (level_of_digit c) = cores c.
Proof.
  unfold level_of_digit. destruct (setByUser c "l"); [done|].
  by destruct (List.find _ _).
Qed.

(** The capacity of the semaphore: the value of [-cores] when it is
    positive, the number of processors otherwise. *)
Lemma main_setup_cores (h : host) (c0 c : flags) (args files : list string) :
  main_setup h c0 args = Run c files →
  cores c = (if cores c0 <=? 0 then NumCPU h else cores c0).
Proof.
  unfold main_setup.
  change (cores c0) with (cores (set_stdin_flag false c0)).
  rewrite <- (cores_level_of_digit (set_stdin_flag false c0)).
  destruct (level_of_digit (set_stdin_flag false c0)) as
    [so de fo he ve ke su co te cm le re vi si]. cbn.
  destruct (_ || _); [done|]. destruct he; [done|].
  destruct (_ && _); [done|].
  destruct args as [|a args]; cbn;
    repeat match goal with |- context [if ?b then _ else _] => destruct b eqn:? end;
    intros [= <- _]; cbn in *; congruence.
Qed.




(** ** Jobs read the files and standard input only *)

Lemma agree_refl (w : world) : agree w w.
Proof. by repeat split. Qed.















Section Blind.
Context `{Codec}.
Variable c : flags.











End Blind.

(** ** C9: the semaphore, the calls and the goroutines of the transfers *)

Lemma count_insert (P : gjob → bool) (sem sem' : nat) (jobs : list gjob)
    (i : nat) (x y : gjob) :
  jobs !! i = Some x →
  (count P (mkGate sem' (<[i := y]> jobs)) + Nat.b2n (P x) =
   count P (mkGate sem jobs) + Nat.b2n (P y))%nat.
Proof. apply filter_insert_length. Qed.

Lemma count_le (P Q : gjob → bool) (s : gate) :
  (∀ j, P j = true → Q j = true) → (count P s ≤ count Q s)%nat.
Proof.
  intros HPQ. unfold count. induction (g_jobs s) as [|j l IH]; [done|].
  rewrite !filter_cons. specialize (HPQ j).
  destruct (P j), (Q j); repeat case_decide; try done; cbn [length];
    try lia; by specialize (HPQ eq_refl).
Qed.

Lemma count_busy (s : gate) :
  (count busy s ≤ count in_transfer s + count has_behind s)%nat.
Proof.
  unfold count, busy. induction (g_jobs s) as [|j l IH]; [done|].
  rewrite !filter_cons.
  destruct (in_transfer j), (has_behind j); repeat case_decide; try done;
    cbn [length]; lia.
Qed.

Lemma count_initial (P : gjob → bool) (files : list string) :
  (∀ f, P (mkGjob f Waiting 0) = false) →
  count P (gate_initial files) = 0%nat.
Proof.
  intros HP. unfold count, gate_initial. cbn [g_jobs].
  induction files as [|f files IH]; [done|].
  cbn [map]. rewrite filter_cons, decide_False; [done|].
  by rewrite HP.
Qed.

Section GateFacts.
Variable c : flags.

Lemma gstep_leaving (s s' : gate) : gstep c false s s' → gstep c true s s'.
Proof.
  intros Hstep. inversion Hstep; subst; try done.
  - by eapply g_acquire.
  - by eapply g_call.
  - by eapply g_no_pipe.
  - by eapply g_go.
  - by eapply g_close.
  - by eapply g_return.
  - by eapply g_behind_ends.
  - by eapply g_release.
Qed.

(** The channel holds one element per goroutine of [main] between its send
    and its receive, and never more than its capacity. *)
Lemma gate_invariant (files : list string) (s : gate) :
  rtc (gstep c true) (gate_initial files) s →
  g_sem s = count in_slot s ∧ (g_sem s ≤ capacity c)%nat.
Proof.
  revert s.
  apply (rtc_ind_r (λ s, g_sem s = count in_slot s ∧ (g_sem s ≤ capacity c)%nat)).
  - rewrite count_initial by done. cbn. split; [done|lia].
  - intros s0 s1 _ Hstep [Hsem Hcap].
    inversion Hstep as
      [i f k sem jobs Hi Hlt|i f b k sem jobs Hi Hb|i f k sem jobs Hi
      |i f k sem jobs Hi Hfc Ht|i f k sem jobs Hi|i f k sem jobs Hi
      |i f k sem jobs _ Hi|i f ph k sem jobs Hi|i f b k sem jobs Hi];
      subst; cbn [g_sem] in *.
    + pose proof (count_insert in_slot sem (S sem) jobs i _
                    (mkGjob f (Between false) k) Hi).
      cbn in *. lia.
    + pose proof (count_insert in_slot sem sem jobs i _
                    (mkGjob f Resolving k) Hi).
      cbn in *. lia.
    + pose proof (count_insert in_slot sem sem jobs i _
                    (mkGjob f (Between true) k) Hi).
      cbn in *. lia.
    + pose proof (count_insert in_slot sem sem jobs i _
                    (mkGjob f (Piped Copying) k) Hi).
      cbn in *. lia.
    + pose proof (count_insert in_slot sem sem jobs i _
                    (mkGjob f (Piped Closed) k) Hi).
      cbn in *. lia.
    + pose proof (count_insert in_slot sem sem jobs i _
                    (mkGjob f (Between true) k) Hi).
      cbn in *. lia.
    + pose proof (count_insert in_slot sem sem jobs i _
                    (mkGjob f (Between true) (S k)) Hi).
      cbn in *. lia.
    + pose proof (count_insert in_slot sem sem jobs i _
                    (mkGjob f ph k) Hi).
      destruct ph; cbn in *; lia.
    + pose proof (count_insert in_slot (S sem) sem jobs i _
                    (mkGjob f Left k) Hi).
      cbn in *. lia.
Qed.

(** Without the returns that do not wait, no goroutine of a transfer is
    left behind. *)
Lemma nothing_behind (files : list string) (s : gate) :
  rtc (gstep c false) (gate_initial files) s →
  Forall (λ j, gj_behind j = 0%nat) (g_jobs s).
Proof.
  revert s.
  apply (rtc_ind_r (λ s, Forall (λ j, gj_behind j = 0%nat) (g_jobs s))).
  - unfold gate_initial. cbn. apply Forall_forall.
    intros j Hj. apply list_elem_of_In, in_map_iff in Hj as (f & <- & _). done.
  - intros s0 s1 _ Hstep Hall.
    inversion Hstep as
      [i f k sem jobs Hi Hlt|i f b k sem jobs Hi Hb|i f k sem jobs Hi
      |i f k sem jobs Hi Hfc Ht|i f k sem jobs Hi|i f k sem jobs Hi
      |i f k sem jobs Hl Hi|i f ph k sem jobs Hi|i f b k sem jobs Hi];
      subst; cbn [g_jobs] in *; try done;
      pose proof (Forall_lookup_1 _ _ _ _ Hall Hi) as Hk; cbn in Hk;
      try done; by apply Forall_insert.
Qed.

End GateFacts.

(** C9.  With [-cores N] for an [N] from 1 to 32, in every state a run of
    [main] can reach: the channel holds exactly one element for each
    goroutine of [main] between its send and its receive, and these are at
    most [N]; so at most [N] calls of [processFile] are in their transfer,
    each with the goroutine it started.  The jobs that are transferring
    data, goroutines left behind counted in, are at most [N] more than the
    jobs with a goroutine left behind.  In a run in which no call returns
    without waiting for its goroutine, no goroutine is left behind and the
    jobs transferring data are at most [N]. *)
Theorem C9_gate_bounds_calls (h : host) (c0 c : flags)
    (args files : list string) (N : Z) :
  1 ≤ N ≤ 32 → cores c0 = N →
  main_setup h c0 args = Run c files →
  (∀ s, rtc (gstep c true) (gate_initial files) s →
     g_sem s = count in_slot s ∧
     Z.of_nat (count in_slot s) ≤ N ∧
     Z.of_nat (count in_transfer s) ≤ N ∧
     Z.of_nat (count busy s) ≤ N + Z.of_nat (count has_behind s)) ∧
  (∀ s, rtc (gstep c false) (gate_initial files) s →
     count has_behind s = 0%nat ∧ Z.of_nat (count busy s) ≤ N).
Proof.
  intros HN Hcores Hsetup.
  apply main_setup_cores in Hsetup.
  rewrite Hcores in Hsetup.
  replace (N <=? 0) with false in Hsetup by (symmetry; apply Z.leb_gt; lia).
  assert (Hall : ∀ s, rtc (gstep c true) (gate_initial files) s →
     g_sem s = count in_slot s ∧
     Z.of_nat (count in_slot s) ≤ N ∧
     Z.of_nat (count in_transfer s) ≤ N ∧
     Z.of_nat (count busy s) ≤ N + Z.of_nat (count has_behind s)).
  { intros s Hreach.
    destruct (gate_invariant c files s Hreach) as [Hsem Hcap].
    unfold capacity in Hcap. rewrite Hsetup in Hcap.
    assert (Htr : (count in_transfer s ≤ count in_slot s)%nat).
    { apply count_le. intros [f ph k]. unfold in_transfer, in_slot. cbn.
      by destruct ph. }
    pose proof (count_busy s). lia. }
  split; [exact Hall|].
  intros s Hreach.
  assert (Hb : count has_behind s = 0%nat).
  { pose proof (nothing_behind c files s Hreach) as Hno.
    unfold count. induction Hno as [|j l Hj _ IH]; [done|].
    rewrite filter_cons, decide_False; [done|].
    unfold has_behind. by rewrite Hj. }
  split; [done|].
  destruct (Hall s) as (_ & _ & _ & Hbusy); [|lia].
  eapply rtc_subrel; [|exact Hreach]. intros ??. apply gstep_leaving.
Qed.


(** ** C2: the argument "-" *)

Lemma bind_trace_prefix {A B} (R : relation (gmap string node)) `{!PreOrder R}
    (m : M A) (f : A → M B) (w w0 : world) (r : result A) :
  m w = (r, w0) → (∀ a, frames R (f a)) →
  w_trace w0 `prefix_of` w_trace ((m ≫= f) w).2.
Proof.
  intros Hm Hf. unfold mbind, M_bind. rewrite Hm.
  destruct r as [a|e]; [|done].
  destruct (f a w0) as [r1 w1] eqn:E. by apply (Hf a w0 r1 w1 E).
Qed.

(** Outside test mode, a job for "-" that [main] did not mark as reading
    standard input starts by looking "-" up in the file system. *)
Lemma explicit_dash_is_looked_up `{Codec} (c : flags) (w : world) :
  test c = false → stdin c = false → flags_conflict c = None →
  ∃ rest, new_calls w (processFile c "-" w).2 = (OpLstat, "-") :: rest.
Proof.
  intros Ht Hin Hc. rewrite processFile_run by done.
  destruct (resolve c "-" w) as [r1 w1] eqn:Hres.
  assert (H1 : w_trace w ++ [(OpLstat, "-")] `prefix_of` w_trace w1).
  { unfold resolve in Hres. rewrite Hin in Hres.
    match type of Hres with
    | (?m ≫= ?k) w = _ =>
        pose proof (bind_trace_prefix no_new_dir m k w _ _
                      (os_Lstat_run "-" w)) as Hp
    end.
    rewrite Hres in Hp. apply Hp. intros f.
    unfold output_name, check_output.
    frames_with ltac:(intros; apply no_new_dir_delete). }
  match goal with
  | |- context [(?m ≫= ?k) w] =>
      pose proof (bind_trace_prefix no_new_dir m k w _ _ Hres) as H2
  end.
  destruct H1 as [k1 Hk1].
  edestruct H2 as [k2 Hk2].
  { intros out. unfold transfer, decompress_transfer, compress_transfer,
      remove_original, open_output, write_output, open_input.
    frames_with ltac:(intros;
      first [apply no_new_dir_insert_file | apply no_new_dir_delete]). }
  exists (k1 ++ k2). unfold new_calls. rewrite Hk2, Hk1, <- !app_assoc.
  by rewrite drop_app_length.
Qed.

Lemma stdin_level_of_digit (c : flags) : stdin (level_of_digit c) = stdin c.
Proof.
  unfold level_of_digit. destruct (setByUser c "l"); [done|].
  by destruct (List.find _ _).
Qed.

(** With arguments on the command line, [main] runs them as they are and
    leaves [stdin] unset. *)
Lemma main_setup_explicit (h : host) (c0 c : flags) (args files : list string) :
  main_setup h c0 args = Run c files → args ≠ [] →
  files = args ∧ stdin c = false.
Proof.
  unfold main_setup. intros Hrun Hargs.
  pose proof (stdin_level_of_digit (set_stdin_flag false c0)) as Hsi.
  destruct (level_of_digit (set_stdin_flag false c0)) as
    [so de fo he ve ke su co te cm le re vi si]. cbn in *. subst si.
  destruct (_ || _); [done|]. destruct he; [done|].
  destruct (_ && _); [done|].
  destruct args as [|a args]; [done|]. cbn in Hrun.
  rewrite andb_false_r in Hrun. cbn in Hrun.
  destruct (co <=? 0); by injection Hrun as <- <-.
Qed.

(** So the job of an argument "-", alone or among others, outside test
    mode, starts by looking "-" up in the file system. *)
Lemma explicit_dash_job `{Codec} (h : host) (c0 c : flags)
    (args files : list string) (p : proc) :
  main_setup h c0 args = Run c files → "-" ∈ args →
  test c = false → flags_conflict c = None →
  "-" ∈ files ∧
  ∃ rest,
    new_calls (p_world p) (p_world (job c "-" p)) = (OpLstat, "-") :: rest.
Proof.
  intros Hrun Hdash Ht Hc.
  destruct (main_setup_explicit _ _ _ _ _ Hrun) as [-> Hin].
  { intros ->. by apply elem_of_nil in Hdash. }
  split; [done|].
  destruct (explicit_dash_is_looked_up c (p_world p) Ht Hin Hc) as [rest Hrest].
  exists rest. unfold job. rewrite decide_True by done. unfold run_file.
  destruct (processFile c "-" (p_world p)) as [[[]|e] w1]; exact Hrest.
Qed.

(** C2.  [bzip2 -c -] with "hello" on standard input, in a directory that
    has no file called "-": [main] hands "-" to [processFile] without a
    [Stat], but leaves [stdin] unset, so [processFile] calls [Lstat] on "-"
    and the job fails with "no such file"; standard input is not read,
    nothing is written, the exit status is 1. *)
Theorem C2_explicit_dash_is_looked_up :
  ∃ c,
    main_setup Sample.a_host Sample.dash_c ["-"] = Run c ["-"] ∧
    stdin c = false ∧
    let p := run_in_order (H := Sample.toy) c ["-"] Sample.w_piped in
    w_trace (p_world p) = [(OpLstat, "-")] ∧
    p_entries p = [("-", Err (PathError "lstat" "-" ENOENT))] ∧
    w_stdin (p_world p) = Sample.hello ∧
    w_stdout (p_world p) = [] ∧
    hasErrors p = true.
Proof. eexists. split; [reflexivity|]. vm_compute. repeat split. Qed.

(** ** C3: stripping the suffix *)

Lemma HasSuffix_refl (s : string) : HasSuffix s s = true.
Proof.
  unfold HasSuffix. rewrite Nat.leb_refl, Nat.sub_diag. cbn.
  apply bool_decide_eq_true. unfold len.
  induction s as [|a s IH]; [done|]. cbn. by rewrite IH.
Qed.

(** A name that is nothing but the dot and the suffix cannot be stripped:
    the job fails with the error that says so. *)
Lemma output_name_cannot_strip (c : flags) (dir : string) (w : world) :
  decompress c = true →
  Split (dir +:+ "." +:+ suffix c) = (dir, "." +:+ suffix c) →
  output_name c (dir +:+ "." +:+ suffix c) w =
    (Err (Errorf ("can't strip suffix ." +:+ suffix c +:+ " from file " +:+
                  (dir +:+ "." +:+ suffix c))), w).
Proof.
  intros Hd Hsp. unfold output_name. rewrite Hd, Hsp, HasSuffix_refl.
  by rewrite Nat.ltb_irrefl.
Qed.

Lemma split_go_no_dot (k : nat) (cur s : string) :
  count_dots s = 0%nat → split_go "." k cur s = [cur +:+ s].
Proof.
  revert k cur. induction s as [|a s IH]; intros [|k] cur Hs; try done.
  - cbn. by rewrite str_app_nil_r.
  - cbn in *. destruct (Ascii.eqb a "."); [done|].
    rewrite IH by done. by rewrite str_app_assoc.
Qed.

(** Splitting a name that ends in a dot and a dotless suffix, with enough
    cuts allowed: the suffix is the last piece and the pieces before it
    join to the rest of the name. *)
Lemma split_go_dotless_suffix (k : nat) (cur base suf : string) :
  count_dots suf = 0%nat → (count_dots base < k)%nat →
  ∃ pieces, pieces ≠ [] ∧
    split_go "." k cur (base +:+ "." +:+ suf) = pieces ++ [suf] ∧
    Join pieces "." = cur +:+ base.
Proof.
  intros Hsuf. revert k cur. induction base as [|a base IH]; intros k cur Hk.
  - destruct k as [|k]; [lia|].
    change ("" +:+ "." +:+ suf) with (String "." suf).
    change (split_go "." (S k) cur (String "." suf))
      with (cur :: split_go "." k "" suf).
    rewrite split_go_no_dot by done. exists [cur].
    by rewrite str_app_nil_r.
  - destruct k as [|k]; [lia|]. rewrite str_app_cons. cbn [split_go].
    cbn [count_dots] in Hk. destruct (Ascii.eqb_spec a ".") as [->|Hne].
    + destruct (IH k "") as (pieces & Hne & -> & HJ); [lia|].
      exists (cur :: pieces). split; [done|]. split; [done|].
      destruct pieces as [|p ps]; [done|].
      rewrite Join_cons2, HJ. done.
    + destruct (IH (S k) (cur +:+ String a "")) as (pieces & Hne' & -> & HJ);
        [lia|].
      exists pieces. split; [done|]. split; [done|].
      by rewrite HJ, str_app_assoc.
Qed.

Lemma count_dots_le_len (s : string) : (count_dots s ≤ len s)%nat.
Proof.
  induction s as [|a s IH]; [done|]. unfold len in *. cbn.
  destruct (Ascii.eqb a "."); lia.
Qed.

Lemma HasSuffix_app (a b : string) : HasSuffix (a +:+ b) b = true.
Proof.
  unfold HasSuffix. rewrite len_app.
  replace (len b <=? len a + len b)%nat with true
    by (symmetry; apply Nat.leb_le; lia).
  replace (len a + len b - len b)%nat with (len a) by lia. cbn.
  apply bool_decide_eq_true. unfold len.
  induction a as [|x a IH]; [|by rewrite str_app_cons].
  rewrite str_app_nil_l. cbn [String.length].
  clear. induction b as [|y b IHb]; [done|]. cbn. by rewrite IHb.
Qed.

Lemma init_snoc {A} (l : list A) (x : A) : init (l ++ [x]) = l.
Proof.
  unfold init. rewrite length_app. cbn.
  replace (length l + 1 - 1)%nat with (length l) by lia.
  by rewrite take_app_length.
Qed.

(** For a suffix without a dot the claim of C3 holds: a name that ends in
    the dot and the suffix, with something before them, is stripped of
    exactly the dot and the suffix. *)
Lemma output_name_strips_dotless_suffix
    (c : flags) (inFilePath dir base : string) (w : world) :
  decompress c = true →
  suffix c ≠ "" → count_dots (suffix c) = 0%nat → base ≠ "" →
  Split inFilePath = (dir, base +:+ "." +:+ suffix c) →
  inFilePath = (dir +:+ base) +:+ "." +:+ suffix c ∧
  output_name c inFilePath w = (Ok (dir +:+ base), w).
Proof.
  intros Hd Hs Hdots Hbase Hsp. split.
  { pose proof (Split_app inFilePath) as Happ. rewrite Hsp in Happ.
    cbn in Happ. by rewrite str_app_assoc. }
  unfold output_name. rewrite Hd, Hsp, HasSuffix_app.
  set (file := base +:+ "." +:+ suffix c).
  assert (Hlen : (len ("." +:+ suffix c) < len file)%nat).
  { subst file. rewrite !len_app. destruct base; [done|]. unfold len. cbn. lia. }
  apply Nat.ltb_lt in Hlen as Hlt. rewrite Hlt.
  unfold SplitN.
  replace (Z.of_nat (len file) =? 0) with false
    by (symmetry; apply Z.eqb_neq; lia).
  replace (Z.of_nat (len file) <? 0) with false
    by (symmetry; apply Z.ltb_ge; lia).
  rewrite Nat2Z.id.
  destruct (split_go_dotless_suffix
              (Nat.min (len file) (S (len file)) - 1) "" base (suffix c))
    as (pieces & _ & Hsplit & HJ); [done| |].
  { pose proof (count_dots_le_len base). subst file.
    rewrite !len_app in *. destruct (suffix c); [done|].
    unfold len in *. cbn in *. lia. }
  fold file in Hsplit. rewrite Hsplit, init_snoc, HJ. done.
Qed.

(** C3.  Decompressing [a.tar.bz2] with [-S tar.bz2]: the name ends in the
    dot and the suffix and more than that is left, yet the output name is
    [a.tar], not [a]: the code cuts the name at its last dot, whatever the
    suffix is. *)
Theorem C3_dotted_suffix_cut_at_last_dot :
  let c := Sample.with_suffix "tar.bz2" (Sample.with_decompress Sample.defaults) in
  let r := processFile (H := Sample.toy) c "a.tar.bz2" Sample.w_dotted in
  HasSuffix "a.tar.bz2" ("." +:+ suffix c) = true ∧
  "a.tar.bz2" = "a" +:+ "." +:+ suffix c ∧
  (output_name c "a.tar.bz2" Sample.w_dotted).1 = Ok "a.tar" ∧
  r.1 = Ok tt ∧
  w_fs r.2 !! "a.tar" = Some (File Sample.hello) ∧
  w_fs r.2 !! "a" = None.
Proof. vm_compute. repeat split. Qed.

(** ** C7 as it was stated *)

(** Testing a good file with [-t -c -f]: the check for conflicting flags
    comes before the test, so the job fails without opening its input.  The
    same job without [-f] opens the file and passes. *)
Lemma C7_conflicting_flags_come_first :
  let w := Sample.world_of {[ "report.txt.bz2" := File (x42 :: Sample.hello) ]} in
  let c := Sample.with_stdout (Sample.with_test Sample.defaults) in
  let r := processFile (H := Sample.toy) (Sample.with_force c) "report.txt.bz2" w in
  let r' := processFile (H := Sample.toy) c "report.txt.bz2" w in
  test (Sample.with_force c) = true ∧
  r.1 = Err (Errorf "stdout set, force not used") ∧
  w_trace r.2 = [] ∧
  r'.1 = Ok tt ∧
  w_trace r'.2 = [(OpOpen, "report.txt.bz2")].
Proof. vm_compute. repeat split. Qed.

(** ** C4 as it was stated *)

(** Decompressing [notes], which holds a good stream and has no suffix:
    the job succeeds, [notes.out] holds the decoded bytes, and [notes] is
    gone, not untouched. *)
Lemma C4_input_is_removed :
  let c := Sample.with_decompress Sample.defaults in
  let r := processFile (H := Sample.toy) c "notes" Sample.w_notes in
  HasSuffix (Split "notes").2 ("." +:+ suffix c) = false ∧
  r.1 = Ok tt ∧
  w_stderr r.2 = [DiagNoSuffix "notes" "bz2"; DiagCantGuess "notes"] ∧
  w_fs r.2 !! "notes.out" = Some (File Sample.hello) ∧
  w_fs Sample.w_notes !! "notes" = Some (File (x42 :: Sample.hello)) ∧
  w_fs r.2 !! "notes" = None.
Proof. vm_compute. repeat split. Qed.

(** ** C8 as it was stated *)


(** ** C9 as it was stated *)

(** [bzip2 -cores 1 a b] where the output files cannot be created: the
    call for [a] comes back from the failed [os.Create] (the last system
    call it made) without waiting for the goroutine it started; the
    goroutine of [a] gives its slot back, that of [b] takes it and starts
    its transfer.  One element is in the channel, and two jobs have a
    goroutine in a transfer. *)
Lemma C9_goroutine_left_behind :
  let c := Sample.cores_1 in
  let s := mkGate 1 [mkGjob "a" Left 1; mkGjob "b" (Piped Copying) 0] in
  main_setup Sample.a_host c ["a"; "b"] = Run c ["a"; "b"] ∧
  cores c = 1 ∧
  (processFile (H := Sample.toy) c "a" Sample.w_readonly).1 =
    Err (PathError "open" "a.bz2" EACCES) ∧
  last (w_trace (processFile (H := Sample.toy) c "a" Sample.w_readonly).2) =
    Some (OpCreate, "a.bz2") ∧
  rtc (gstep c true) (gate_initial ["a"; "b"]) s ∧
  g_sem s = 1%nat ∧
  count in_slot s = 1%nat ∧
  count busy s = 2%nat.
Proof.
  split; [reflexivity|]. split; [reflexivity|].
  split; [by vm_compute|]. split; [by vm_compute|].
  split; [|by vm_compute].
  eapply rtc_l.
  { apply (g_acquire Sample.cores_1 true 0 "a" 0); [reflexivity|].
    unfold capacity. cbn. lia. }
  eapply rtc_l.
  { apply (g_call Sample.cores_1 true 0 "a" false 0); [reflexivity|by left]. }
  eapply rtc_l.
  { apply (g_go Sample.cores_1 true 0 "a" 0); reflexivity. }
  eapply rtc_l.
  { apply (g_leave Sample.cores_1 true 0 "a" 0); reflexivity. }
  eapply rtc_l.
  { apply (g_release Sample.cores_1 true 0 "a" true 1 0). reflexivity. }
  eapply rtc_l.
  { apply (g_acquire Sample.cores_1 true 1 "b" 0); [reflexivity|].
    unfold capacity. cbn. lia. }
  eapply rtc_l.
  { apply (g_call Sample.cores_1 true 1 "b" false 0); [reflexivity|by left]. }
  eapply rtc_l.
  { apply (g_go Sample.cores_1 true 1 "b" 0); reflexivity. }
  apply rtc_refl.
Qed.

(** ** Compressing a file and decompressing the result, on disk *)

Lemma Split_no_slash (t : string) : has_slash t = false → Split t = ("", t).
Proof.
  induction t as [|a t IH]; [done|]. cbn. intros [Ha Ht]%orb_false_iff.
  by rewrite IH, Ha.
Qed.

Lemma Split_app_no_slash (p t : string) :
  has_slash t = false → Split (p +:+ t) = ((Split p).1, (Split p).2 +:+ t).
Proof.
  intros Ht. induction p as [|a p IH].
  - rewrite str_app_nil_l. by rewrite Split_no_slash.
  - rewrite str_app_cons. cbn [Split]. rewrite IH.
    destruct (Split p) as [d f]. cbn [fst snd].
    destruct d; [|done]. by destruct (Ascii.eqb a "/").
Qed.

(** A job on a regular file that writes a named file, when the name of the
    output is free and nothing stands in its way. *)
Lemma processFile_named `{Codec}
    (c : flags) (inFilePath out : string) (w w0 : world) (d : bytes) :
  test c = false → stdin c = false → stdout c = false → suffix c ≠ "" →
  inFilePath ≠ "-" →
  w_fs w !! inFilePath = Some (File d) →
  output_name c inFilePath w = (Ok out, w0) →
  w_fs w !! out = None →
  w_denied w OpOpen inFilePath = false → w_denied w OpCreate out = false →
  (keep c = false → w_denied w OpRemove inFilePath = false) →
  (if decompress c then (bz_decode d).2 = None
   else bz_new_writer (level c) = None) →
  ∃ w',
    processFile c inFilePath w = (Ok tt, w') ∧
    w_denied w' = w_denied w ∧
    w_fs w' =
      (if keep c then id else delete inFilePath)
        (<[out := File (if decompress c then (bz_decode d).1
                        else bz_encode (level c) d)]> (w_fs w)).
Proof.
  intros Ht Hin Hso Hs Hdash Hfs Hname Hfree Hopen Hcreate Hremove Hcodec.
  assert (Hneq : out ≠ inFilePath).
  { eapply (output_name_neq c _ _ w). by rewrite Hname. }
  rewrite processFile_run by auto using flags_conflict_named.
  run_M. rewrite (resolve_named _ _ _ d) by done. run_M.
  set (wa := add_trace (OpLstat, inFilePath) w).
  destruct (output_name c inFilePath wa) as [r1 w1] eqn:Hon.
  assert (r1 = Ok out) as ->.
  { pose proof (output_name_indep c inFilePath wa w) as Hi.
    by rewrite Hon, Hname in Hi. }
  destruct (output_name_frame _ _ _ _ _ Hon) as (Hf1 & Hd1 & _ & _ & _).
  subst wa. wsimpl.
  unfold check_output. run_M. rewrite os_Lstat_run, Hf1, Hfree.
  set (w2 := add_trace (OpLstat, out) w1).
  destruct (transfer_ok c inFilePath out w2 d)
    as (w3 & -> & Hden3 & Hw3 & _); try done.
  { unfold input_bytes. subst w2. wsimpl.
    rewrite decide_False by done. by rewrite Hd1, Hopen, Hf1, Hfs. }
  { intros _. subst w2. wsimpl. by rewrite Hd1, Hf1, Hfree. }
  rewrite Hso in Hw3. cbn zeta in Hw3. destruct Hw3 as [Hfs3 _].
  subst w2. wsimpl. rewrite Hf1 in Hfs3. rewrite Hd1 in Hden3.
  unfold remove_original. rewrite Hso. cbn [negb andb].
  rewrite bool_decide_eq_false_2 by done. cbn [negb].
  destruct (keep c) eqn:Hk; cbn [negb andb].
  - exists w3. by rewrite Hfs3.
  - rewrite os_Remove_run, Hden3. rewrite Hremove by done.
    rewrite Hfs3, lookup_insert_ne, Hfs by done.
    eexists. split; [done|]. wsimpl. by rewrite Hfs3.
Qed.

(** X8. Compressing a regular file and decompressing what that leaves puts
    the file system back as it was, when the decoder inverts the encoder,
    the suffix has neither dot nor slash, and nothing stands in the way of
    the two jobs. *)
Lemma round_trip_on_disk `{Codec}
    (cz cd : flags) (inFilePath : string) (w : world) (X : bytes) :
  (∀ l x, 1 ≤ l ≤ 9 →
     bz_new_writer l = None ∧ bz_decode (bz_encode l x) = (x, None)) →
  test cz = false → stdin cz = false → stdout cz = false → keep cz = false →
  decompress cz = false → 1 ≤ level cz ≤ 9 →
  test cd = false → stdin cd = false → stdout cd = false → keep cd = false →
  decompress cd = true → suffix cd = suffix cz →
  suffix cz ≠ "" → count_dots (suffix cz) = 0%nat → has_slash (suffix cz) = false →
  (Split inFilePath).2 ≠ "" → inFilePath ≠ "-" →
  HasSuffix inFilePath ("." +:+ suffix cz) = false →
  let out := inFilePath +:+ "." +:+ suffix cz in
  w_fs w !! inFilePath = Some (File X) → w_fs w !! out = None →
  (∀ op, w_denied w op inFilePath = false ∧ w_denied w op out = false) →
  ∃ w1 w2,
    processFile cz inFilePath w = (Ok tt, w1) ∧
    w_fs w1 !! out = Some (File (bz_encode (level cz) X)) ∧
    w_fs w1 !! inFilePath = None ∧
    processFile cd out w1 = (Ok tt, w2) ∧
    w_fs w2 = w_fs w.
Proof.
  intros Hcodec Htz Hiz Hsz Hkz Hdz Hl Htd Hid Hsd Hkd Hdd Hsuf Hs Hdots Hslash
    Hfile Hdashz Hnosuf out HX Hout Hperm.
  destruct (Hcodec (level cz) X Hl) as [Hnw Hdec].
  assert (Hne : out ≠ inFilePath).
  { intros Heq. rewrite Heq in Hout. congruence. }
  destruct (processFile_named cz inFilePath out w w X)
    as (w1 & Hrun1 & Hden1 & Hfs1); try done; try apply Hperm.
  { unfold output_name. by rewrite Hdz, Hnosuf. }
  { intros _. apply Hperm. }
  { by rewrite Hdz. }
  rewrite Hkz, Hdz in Hfs1.
  assert (Hout1 : w_fs w1 !! out = Some (File (bz_encode (level cz) X))).
  { by rewrite Hfs1, lookup_delete_ne, lookup_insert_eq. }
  assert (Hin1 : w_fs w1 !! inFilePath = None).
  { by rewrite Hfs1, lookup_delete_eq. }
  assert (Hsplit : Split out =
                   ((Split inFilePath).1,
                    (Split inFilePath).2 +:+ "." +:+ suffix cd)).
  { subst out. rewrite Hsuf. apply Split_app_no_slash.
    change ("." +:+ suffix cz) with (String "." (suffix cz)). cbn.
    by rewrite Hslash. }
  destruct (output_name_strips_dotless_suffix cd out (Split inFilePath).1
              (Split inFilePath).2 w1) as [_ Hname]; try done; try congruence.
  rewrite Split_app in Hname.
  destruct (processFile_named cd out inFilePath w1 w1 (bz_encode (level cz) X))
    as (w2 & Hrun2 & Hden2 & Hfs2); try done.
  { congruence. }
  { intros Heq. apply (f_equal len) in Heq. subst out.
    rewrite !len_app in Heq. destruct (suffix cz); [done|].
    unfold len in Heq. cbn in Heq. lia. }
  { rewrite Hden1. apply Hperm. }
  { rewrite Hden1. apply Hperm. }
  { intros _. rewrite Hden1. apply Hperm. }
  { by rewrite Hdd, Hdec. }
  exists w1, w2. repeat split; try done.
  rewrite Hfs2, Hkd, Hdd, Hdec, Hfs1. cbn.
  apply map_eq. intros q.
  destruct (decide (q = out)) as [->|Hq1].
  { by rewrite lookup_delete_eq, Hout. }
  rewrite lookup_delete_ne by done.
  destruct (decide (q = inFilePath)) as [->|Hq2].
  { by rewrite lookup_insert_eq, HX. }
  by rewrite lookup_insert_ne, lookup_delete_ne, lookup_insert_ne.
Qed.

(** ** The theorems at concrete inputs *)

Lemma toy_inverse (l : Z) (x : bytes) :
  1 ≤ l ≤ 9 →
  bz_new_writer (Codec := Sample.toy) l = None ∧
  bz_decode (Codec := Sample.toy) (bz_encode (Codec := Sample.toy) l x) = (x, None).
Proof.
  intros Hl. split; [|reflexivity]. cbn. unfold Sample.toy_new_writer.
  replace (0 <=? l) with true by (symmetry; apply Z.leb_le; lia).
  replace (l <=? 9) with true by (symmetry; apply Z.leb_le; lia). done.
Defined.

(** [report.txt] compressed to a file at level 9, and the result fed to a
    decompression. *)
Lemma C1_witness :
  ∃ wz' Y,
    transfer (H := Sample.toy) Sample.defaults "report.txt" "report.txt.bz2"
      Sample.w_report = (Ok tt, wz') ∧
    wrote Sample.defaults "report.txt.bz2" Sample.w_report wz' Y ∧
    ∀ wd, input_bytes wd "report.txt.bz2" = Some Y →
      can_create (Sample.with_decompress Sample.defaults) "report.txt" wd →
      ∃ wd',
        transfer (H := Sample.toy) (Sample.with_decompress Sample.defaults)
          "report.txt.bz2" "report.txt" wd = (Ok tt, wd') ∧
        wrote (Sample.with_decompress Sample.defaults) "report.txt" wd wd'
          Sample.hello.
Proof.
  apply (C1_round_trip (H := Sample.toy)).
  - apply toy_inverse.
  - reflexivity.
  - cbn. lia.
  - reflexivity.
  - reflexivity.
  - intros _. split; [reflexivity|]. vm_compute. discriminate.
Defined.

Lemma C4_witness :
  ∃ w',
    processFile (H := Sample.toy)
      (Sample.with_force (Sample.with_decompress Sample.defaults))
      "notes" Sample.w_notes_taken = (Ok tt, w') ∧
    w_fs w' !! "notes.out" = Some (File Sample.hello) ∧
    w_fs w' !! "notes" = None.
Proof.
  destruct (C4_missing_suffix_falls_back (H := Sample.toy)
              (Sample.with_force (Sample.with_decompress Sample.defaults))
              "notes" Sample.w_notes_taken (x42 :: Sample.hello))
    as (_ & _ & [_ Hex] & Hall); try reflexivity.
  { discriminate. }
  destruct Hex as [w' Hw'].
  { split; [vm_compute; by split|]. repeat split; reflexivity. }
  destruct (Hall w' Hw') as (Hout & Hin & _).
  exists w'. split; [exact Hw'|]. split; [exact Hout|exact Hin].
Defined.

Lemma C5_witness :
  ∃ r w',
    processFile (H := Sample.toy) Sample.defaults "report.txt" Sample.w_both
      = (r, w') ∧
    r = Err (Errorf "outFile report.txt.bz2 exists. use -f to overwrite") ∧
    w_fs w' = w_fs Sample.w_both.
Proof.
  destruct (C5_existing_output (H := Sample.toy) Sample.defaults "report.txt"
              "report.txt.bz2" Sample.w_both Sample.hello (File [x00]))
    as (r & w' & Hrun & Hnoforce & _); try reflexivity.
  { discriminate. }
  exists r, w'. split; [exact Hrun|]. apply Hnoforce. reflexivity.
Defined.

Lemma C6_witness :
  ∃ r w3,
    processFile (H := Sample.toy) Sample.defaults "report.txt" Sample.w_report
      = (r, w3) ∧
    (OpRemove, "report.txt") ∈
      new_calls
        (transfer (H := Sample.toy) Sample.defaults "report.txt" "report.txt.bz2"
           (resolve Sample.defaults "report.txt" Sample.w_report).2).2 w3.
Proof.
  destruct (C6_original_removed (H := Sample.toy) Sample.defaults "report.txt"
              "report.txt.bz2" Sample.w_report
              (resolve Sample.defaults "report.txt" Sample.w_report).2
              (transfer (H := Sample.toy) Sample.defaults "report.txt"
                 "report.txt.bz2"
                 (resolve Sample.defaults "report.txt" Sample.w_report).2).2)
    as (r & w3 & Hrun & Hiff & _); try reflexivity.
  exists r, w3. split; [exact Hrun|]. apply Hiff.
  split; [reflexivity|]. split; [reflexivity|discriminate].
Defined.

Lemma C7_witness :
  ∃ r w',
    processFile (H := Sample.toy)
      (Sample.with_force (Sample.with_test Sample.defaults))
      "report.txt" Sample.w_report = (r, w') ∧
    w_fs w' = w_fs Sample.w_report.
Proof.
  destruct (C7_test_mode (H := Sample.toy)
              (Sample.with_force (Sample.with_test Sample.defaults))
              "report.txt" Sample.w_report)
    as (r & w' & Hrun & Hfs & _); [reflexivity|].
  exists r, w'. split; [exact Hrun|exact Hfs].
Defined.


Lemma C9_witness :
  Z.of_nat
    (count in_transfer
       (mkGate 2 [mkGjob "a" (Piped Closed) 0; mkGjob "b" (Piped Copying) 0]))
  ≤ 4.
Proof.
  destruct (C9_gate_bounds_calls Sample.a_host Sample.cores_4 Sample.cores_4
              ["a"; "b"] ["a"; "b"] 4) as [Hall _].
  - lia.
  - reflexivity.
  - reflexivity.
  - apply (Hall (mkGate 2 [mkGjob "a" (Piped Closed) 0;
                           mkGjob "b" (Piped Copying) 0])).
    eapply rtc_l.
    { apply (g_acquire Sample.cores_4 true 0 "a" 0); [reflexivity|].
      unfold capacity. cbn. lia. }
    eapply rtc_l.
    { apply (g_acquire Sample.cores_4 true 1 "b" 0); [reflexivity|].
      unfold capacity. cbn. lia. }
    eapply rtc_l.
    { apply (g_call Sample.cores_4 true 0 "a" false 0); [reflexivity|by left]. }
    eapply rtc_l.
    { apply (g_go Sample.cores_4 true 0 "a" 0); reflexivity. }
    eapply rtc_l.
    { apply (g_call Sample.cores_4 true 1 "b" false 0); [reflexivity|by left]. }
    eapply rtc_l.
    { apply (g_go Sample.cores_4 true 1 "b" 0); reflexivity. }
    eapply rtc_l.
    { apply (g_close Sample.cores_4 true 0 "a" 0). reflexivity. }
    apply rtc_refl.
Defined.

Lemma C10_witness :
  ∃ e w',
    processFile (H := Sample.toy) (Sample.with_suffix "" Sample.defaults)
      "report.txt" Sample.w_report = (Err e, w') ∧
    w' = add_trace (OpLstat, "report.txt") Sample.w_report ∧
    (∀ d, w_fs Sample.w_report !! "report.txt" = Some (File d) →
          e = Errorf "suffix can't be an empty string").
Proof.
  apply (C10_empty_suffix_fails (H := Sample.toy)); reflexivity.
Defined.

(** ** The scenarios of the specification, run on the model *)

(** [report.txt], no flag: [report.txt.bz2] is produced, [report.txt] is
    removed, the exit status is 0. *)
Example scenario_compress :
  let s := mkSched
             (run_in_order (H := Sample.toy) (set_cores 8 Sample.defaults)
                ["report.txt"] Sample.w_report) 0 [("report.txt", Finished)] in
  main_setup Sample.a_host Sample.defaults ["report.txt"]
    = Run (set_cores 8 Sample.defaults) ["report.txt"] ∧
  w_fs (p_world (s_proc s)) = {[ "report.txt.bz2" := File (x42 :: Sample.hello) ]} ∧
  exit_status s = 0.
Proof. vm_compute. repeat split. Qed.

(** [report.txt.bz2] from above, [-d -k]: [report.txt] is restored and
    [report.txt.bz2] stays. *)
Example scenario_decompress_keep :
  let c := Sample.with_keep (Sample.with_decompress Sample.defaults) in
  let w := Sample.world_of {[ "report.txt.bz2" := File (x42 :: Sample.hello) ]} in
  let r := processFile (H := Sample.toy) c "report.txt.bz2" w in
  r.1 = Ok tt ∧
  w_fs r.2 !! "report.txt" = Some (File Sample.hello) ∧
  w_fs r.2 !! "report.txt.bz2" = Some (File (x42 :: Sample.hello)).
Proof. vm_compute. repeat split. Qed.

(** [-t] on a file that does not decode: the job fails, the file is named
    in the diagnostic, nothing is created. *)
Example scenario_test_corrupted :
  let c := Sample.with_test Sample.defaults in
  let w := Sample.world_of {[ "bad.bz2" := File Sample.hello ]} in
  let p := run_in_order (H := Sample.toy) c ["bad.bz2"] w in
  hasErrors p = true ∧
  w_stderr (p_world p) =
    [DiagLog "bad.bz2" (Errorf "test failed: bzip2: corrupted input")] ∧
  w_fs (p_world p) = w_fs w.
Proof. vm_compute. repeat split. Qed.

(** Two files, one of them missing: the other is compressed and its
    original removed, and the exit status is 1. *)
Example scenario_one_missing :
  let p := run_in_order (H := Sample.toy) Sample.defaults
             ["report.txt"; "missing"] Sample.w_report in
  hasErrors p = true ∧
  p_entries p =
    [("report.txt", Ok tt); ("missing", Err (PathError "stat" "missing" ENOENT))] ∧
  w_fs (p_world p) = {[ "report.txt.bz2" := File (x42 :: Sample.hello) ]}.
Proof. vm_compute. repeat split. Qed.

(** * Further properties of [main] and [processFile] *)

(** ** What [main] settles before the jobs *)

(** Looking for a digit flag changes the level and nothing else. *)
Lemma level_of_digit_fields (c : flags) :
  ∃ l, level_of_digit c = set_level l c.
Proof.
  unfold level_of_digit. destruct (setByUser c "l").
  - exists (level c). by destruct c.
  - destruct (List.find _ _) as [d|]; [by eexists|].
    exists (level c). by destruct c.
Qed.

(** The flags and arguments the jobs run with. *)
Lemma main_setup_Run (h : host) (c0 c : flags) (args files : list string) :
  main_setup h c0 args = Run c files →
  level c = level (level_of_digit (set_stdin_flag false c0)) ∧
  1 ≤ level c ≤ 9 ∧
  help c0 = false ∧
  decompress c = decompress c0 ∧ force c = force c0 ∧
  verbose c = verbose c0 ∧ keep c = keep c0 ∧ suffix c = suffix c0 ∧
  test c = test c0 ∧ recursive c = recursive c0 ∧ visited c = visited c0 ∧
  stdin c = bool_decide (args = []) ∧
  files = (if decide (args = []) then ["-"] else args) ∧
  stdout c =
    stdout c0 || (bool_decide (args = []) && negb (stdout_is_terminal h)).
Proof.
  unfold main_setup.
  destruct (level_of_digit_fields (set_stdin_flag false c0)) as [l ->].
  destruct c0 as [so de fo he ve ke su co te cm le re vi si]. cbn.
  destruct (l <? 1) eqn:Hl1; [done|]. destruct (9 <? l) eqn:Hl9; [done|]. cbn.
  apply Z.ltb_ge in Hl1, Hl9.
  destruct he; [done|].
  destruct (_ && _); [done|].
  destruct args as [|a args]; cbn.
  - destruct (stdout_is_terminal h), so; cbn;
      destruct (co <=? 0); intros [= <- <-]; cbn; repeat split; try done; lia.
  - rewrite andb_false_r. cbn.
    destruct (co <=? 0); intros [= <- <-]; cbn; rewrite ?orb_false_r;
      repeat split; try done; lia.
Qed.

(** The three ways [main] can go on. *)
Lemma main_setup_cases (h : host) (c0 : flags) (args : list string) :
  let c1 := level_of_digit (set_stdin_flag false c0) in
  main_setup h c0 args =
    if (level c1 <? 1) || (9 <? level c1) then
      Fatal "invalid compression level: must be between 1 and 9"
    else if help c0 then Help
    else if setByUser c0 "cores" && ((cores c0 <? 1) || (32 <? cores c0)) then
      Fatal "invalid number of cores"
    else
      let c2 := match args with [] => set_stdin_flag true c1 | _ => c1 end in
      let c3 := if negb (stdout_is_terminal h) && stdin c2 && negb (stdout c2)
                then set_stdout_flag true c2 else c2 in
      let c4 := if cores c3 <=? 0 then set_cores (NumCPU h) c3 else c3 in
      Run c4 (match args with [] => ["-"] | _ => args end).
Proof.
  intros c1. unfold main_setup. fold c1.
  assert (Hf : setByUser c1 "cores" = setByUser c0 "cores" ∧
               cores c1 = cores c0 ∧ help c1 = help c0).
  { subst c1.
    destruct (level_of_digit_fields (set_stdin_flag false c0)) as [l ->]. done. }
  destruct Hf as (-> & -> & ->). clearbody c1.
  destruct (_ || _); [done|]. destruct (help c0); [done|].
  destruct (_ && _); [done|]. by destruct args.
Qed.

(** X1. How [main] goes on after parsing.  It stops with a fatal error
    exactly when the level (after the digit flags) is outside 1..9, or help
    is not asked for and [-cores] was given outside 1..32; it prints the
    help exactly when the level is valid and [-h] is set, so [-h] with a bad
    level is an error and [-h] with bad cores is the help.  In every other
    case it runs jobs, and then the level is between 1 and 9, there is at
    least one argument to run, user-given cores are kept, and the cores are
    positive on a host with a processor. *)
Theorem X1_setup_outcomes (h : host) (c0 : flags) (args : list string) :
  let c1 := level_of_digit (set_stdin_flag false c0) in
  let bad_level := (level c1 <? 1) || (9 <? level c1) in
  let bad_cores :=
    setByUser c0 "cores" && ((cores c0 <? 1) || (32 <? cores c0)) in
  ((∃ msg, main_setup h c0 args = Fatal msg) ↔
   bad_level = true ∨ (help c0 = false ∧ bad_cores = true)) ∧
  (main_setup h c0 args = Help ↔ bad_level = false ∧ help c0 = true) ∧
  (∀ c files, main_setup h c0 args = Run c files →
     bad_level = false ∧ help c0 = false ∧ bad_cores = false ∧
     1 ≤ level c ≤ 9 ∧ files ≠ [] ∧
     (setByUser c0 "cores" = true → cores c = cores c0 ∧ 1 ≤ cores c ≤ 32) ∧
     (1 ≤ NumCPU h → 1 ≤ cores c)).
Proof.
  intros c1 bad_level bad_cores.
  pose proof (main_setup_cases h c0 args) as Hcases. cbv zeta in Hcases.
  fold c1 in Hcases. fold bad_level in Hcases. fold bad_cores in Hcases.
  split; [|split].
  - rewrite Hcases. destruct bad_level; [split; [by left|by eexists]|].
    destruct (help c0); [split; [by intros [? [=]]|by intros [|[]]]|].
    destruct bad_cores; [split; [by right|by eexists]|].
    split; [by intros [? [=]]|by intros [|[]]].
  - rewrite Hcases. destruct bad_level; [split; [done|by intros []]|].
    destruct (help c0); [done|]. destruct bad_cores; split; try done;
      by intros [].
  - intros c files Hrun.
    pose proof (main_setup_Run _ _ _ _ _ Hrun)
      as (Hl & Hl19 & Hh & _ & _ & _ & _ & _ & _ & _ & _ & _ & Hf & _).
    pose proof (main_setup_cores _ _ _ _ _ Hrun) as Hc.
    rewrite Hcases in Hrun.
    destruct bad_level; [done|]. rewrite Hh in Hrun.
    destruct bad_cores eqn:Hbc; [done|].
    split; [done|]. split; [done|]. split; [done|]. split; [done|].
    split; [rewrite Hf; by destruct (decide (args = [])), args|].
    split.
    + intros Hset. subst bad_cores. rewrite Hset in Hbc. cbn in Hbc.
      apply orb_false_iff in Hbc as [?%Z.ltb_ge ?%Z.ltb_ge].
      rewrite Hc. destruct (cores c0 <=? 0) eqn:E; [apply Z.leb_le in E|]; lia.
    + intros Hcpu. rewrite Hc.
      destruct (cores c0 <=? 0) eqn:E; [done|]. apply Z.leb_gt in E. lia.
Qed.

Lemma find_first {A} (P : A → bool) (l : list A) (k : nat) (x : A) :
  l !! k = Some x → P x = true →
  (∀ k' y, (k' < k)%nat → l !! k' = Some y → P y = false) →
  List.find P l = Some x.
Proof.
  revert k. induction l as [|a l IH]; intros [|k] Hk Hx Hbefore; try done.
  - simplify_eq/=. by rewrite Hx.
  - cbn. rewrite (Hbefore 0%nat a) by (done || lia).
    apply (IH k); [done|done|].
    intros k' y Hk' Hy. apply (Hbefore (S k') y); [lia|done].
Qed.

(** X2. A level given by digit flags.  When [-l] is not on the command
    line and digit flags are, the level the jobs get is the smallest digit
    given, whatever the order of the digits on the command line and whatever
    level the parser had left; nothing else changes. *)
Theorem X2_smallest_digit_wins (c : flags) (k : nat) (i : Z) (name : string) :
  setByUser c "l" = false →
  digits !! k = Some (i, name) →
  setByUser c name = true →
  (∀ k' j n, (k' < k)%nat → digits !! k' = Some (j, n) → setByUser c n = false) →
  level_of_digit c = set_level i c ∧ 1 ≤ i ≤ 9.
Proof.
  intros Hl Hk Hset Hbefore. split.
  - unfold level_of_digit. rewrite Hl.
    rewrite (find_first _ digits k (i, name)); try done.
    intros k' [j n] Hk' Hy. by apply (Hbefore k' j n).
  - do 9 (destruct k as [|k]; [injection Hk as <- <-; lia|]). done.
Qed.

(** [-9 -1], in this order or the other: level 1. *)
Lemma X2_witness :
  level_of_digit
    (mkFlags false false false false false false "bz2" 0 false true 9 false
       ["1"; "9"] false) =
  set_level 1
    (mkFlags false false false false false false "bz2" 0 false true 9 false
       ["1"; "9"] false) ∧ 1 ≤ 1 ≤ 9.
Proof.
  apply (X2_smallest_digit_wins _ 0%nat 1 "1").
  - reflexivity.
  - reflexivity.
  - reflexivity.
  - intros k' j n Hk'. lia.
Defined.

(** ** Arguments that cannot be processed *)

(** X3. An argument other than "-" that names nothing, or names a directory
    when [-r] is not set, costs one [Stat] and one line on standard error:
    the error flag is set, the failure is recorded, and the file system and
    the standard streams are as they were.  Nothing below such a directory
    is looked at. *)
Theorem X3_unusable_argument `{Codec} (c : flags) (file : string) (p : proc) :
  file ≠ "-" →
  w_fs (p_world p) !! file = None ∨
  (w_fs (p_world p) !! file = Some Dir ∧ recursive c = false) →
  let p' := job c file p in
  hasErrors p' = true ∧
  w_fs (p_world p') = w_fs (p_world p) ∧
  w_stdin (p_world p') = w_stdin (p_world p) ∧
  w_stdout (p_world p') = w_stdout (p_world p) ∧
  w_trace (p_world p') = w_trace (p_world p) ++ [(OpStat, file)] ∧
  ∃ e d,
    p_entries p' = p_entries p ++ [(file, Err e)] ∧
    w_stderr (p_world p') = w_stderr (p_world p) ++ [d].
Proof.
  intros Hdash Hcase p'. subst p'. unfold job.
  rewrite decide_False by done. unfold sys, os_Stat.
  rewrite os_stat_run.
  destruct Hcase as [Hnone|[Hdir Hrec]].
  - rewrite Hnone. cbn. repeat split; try done. by eexists _, _.
  - rewrite Hdir. cbn. rewrite Hrec. cbn. repeat split; try done.
    by eexists _, _.
Qed.

Lemma X3_witness :
  hasErrors (job (H := Sample.toy) Sample.defaults "missing"
               (start Sample.w_report)) = true.
Proof.
  apply (X3_unusable_argument (H := Sample.toy) Sample.defaults "missing"
           (start Sample.w_report)).
  - discriminate.
  - left. reflexivity.
Defined.

(** ** What a job leaves behind when it fails *)

Section JobFailures.
Context `{Codec}.

(** In test mode, and when writing to standard output, no file changes. *)
Lemma test_file_fs (c : flags) (inFilePath : string) :
  frames eq (test_file c inFilePath).
Proof. unfold test_file, open_input. frames_with idtac. Qed.

Lemma transfer_stdout_fs (c : flags) (inFilePath out : string) :
  stdout c = true → frames eq (transfer c inFilePath out).
Proof.
  intros Hso. unfold transfer, decompress_transfer, compress_transfer,
    open_output, write_output, open_input. rewrite Hso.
  frames_with idtac.
Qed.

(** Resolving the names leaves the input alone, and the output it names is
    another file. *)
Lemma resolve_keeps_input (c : flags) (inFilePath : string) (w w1 : world)
    (r : result string) :
  resolve c inFilePath w = (r, w1) →
  w_fs w1 !! inFilePath = w_fs w !! inFilePath ∧
  (stdout c = false → ∀ out, r = Ok out → out ≠ inFilePath).
Proof.
  unfold resolve. destruct (stdin c).
  { destruct (negb (stdout c)) eqn:Hso; [by intros [= <- <-]|].
    apply negb_false_iff in Hso.
    destruct (setByUser c "S"); intros [= <- <-]; split; try done;
      congruence. }
  run_M. rewrite os_Lstat_run.
  destruct (w_fs w !! inFilePath) as [f|] eqn:Hf; [|by intros [= <- <-]].
  destruct (IsDir f); [by intros [= <- <-]|].
  destruct (stdout c) eqn:Hso; cbn [negb]; [by intros [= <- <-]|].
  destruct (decide (suffix c = "")); [by intros [= <- <-]|].
  destruct (output_name c inFilePath _) as [[out|e] w0] eqn:Hon;
    [|intros [= <- <-]; split; [|done];
      by destruct (output_name_frame _ _ _ _ _ Hon) as (-> & _)].
  destruct (output_name_frame _ _ _ _ _ Hon) as (Hf0 & Hd0 & _).
  cbn [w_fs add_trace] in Hf0.
  assert (Hneq : out ≠ inFilePath).
  { eapply (output_name_neq c _ _ (add_trace (OpLstat, inFilePath) w)).
    by rewrite Hon. }
  unfold check_output. run_M. rewrite os_Lstat_run.
  destruct (w_fs w0 !! out) as [g|] eqn:Hg.
  2:{ intros [= <- <-]. cbn. split; [by rewrite Hf0|]. by intros _ ? [= <-]. }
  destruct (force c); cbn [negb];
    [|intros [= <- <-]; cbn; split; [by rewrite Hf0|done]].
  destruct g as [d|]; cbn [IsDir];
    [|intros [= <- <-]; cbn; split; [by rewrite Hf0|done]].
  rewrite os_Remove_run. cbn [w_fs w_denied add_trace]. rewrite Hg.
  destruct (w_denied w0 OpRemove out); intros [= <- <-]; cbn.
  - split; [by rewrite Hf0|done].
  - split; [by rewrite lookup_delete_ne, Hf0|]. by intros _ ? [= <-].
Qed.

(** X4. A job never loses its input by failing: whatever the flags and the
    mode, when [processFile] returns an error for an input that was a
    regular file, that file is still there with the contents it had. *)
Theorem X4_failed_job_keeps_input
    (c : flags) (inFilePath : string) (w w' : world) (d : bytes) (e : error) :
  w_fs w !! inFilePath = Some (File d) →
  processFile c inFilePath w = (Err e, w') →
  w_fs w' !! inFilePath = Some (File d).
Proof.
  intros Hfs. unfold processFile, check_flags.
  destruct (flags_conflict c) as [e0|]; run_M; [by intros [= _ <-]|].
  destruct (test c).
  { intros Hrun. apply test_file_fs in Hrun as (_ & <- & _). done. }
  destruct (resolve c inFilePath w) as [[out|e1] w1] eqn:Hres;
    destruct (resolve_keeps_input _ _ _ _ _ Hres) as [Hin1 Hneq];
    [|intros [= _ <-]; by rewrite Hin1].
  destruct (transfer c inFilePath out w1) as [[[]|e2] w2] eqn:Htr.
  - assert (Hin2 : w_fs w2 !! inFilePath = Some (File d)).
    { destruct (stdout c) eqn:Hso.
      - apply (transfer_stdout_fs _ _ _ Hso) in Htr as (_ & <- & _).
        by rewrite Hin1.
      - apply transfer_frame in Htr as (_ & Hsame & _).
        rewrite Hsame, Hin1; [done|]. intros ->. by eapply Hneq. }
    unfold remove_original.
    destruct (_ && _); [|by intros [=]].
    rewrite os_Remove_run, Hin2.
    destruct (w_denied w2 OpRemove inFilePath); [|by intros [=]].
    by intros [= _ <-].
  - intros [= _ <-].
    destruct (stdout c) eqn:Hso.
    + apply (transfer_stdout_fs _ _ _ Hso) in Htr as (_ & <- & _).
      by rewrite Hin1.
    + apply transfer_frame in Htr as (_ & Hsame & _).
      rewrite Hsame, Hin1; [done|]. intros ->. by eapply Hneq.
Qed.

End JobFailures.

Section NamedJobs.
Context `{Codec}.

(** A decompress transfer to a named file whose input does not decode:
    what was decoded before the error is in the output file. *)
Lemma decompress_transfer_bad
    (c : flags) (inFilePath out : string) (w : world) (d plain : bytes) (e : error) :
  decompress c = true → stdout c = false →
  input_bytes w inFilePath = Some d →
  w_denied w OpCreate out = false → w_fs w !! out ≠ Some Dir →
  bz_decode d = (plain, Some e) →
  ∃ w', transfer c inFilePath out w = (Err e, w') ∧
        w_fs w' = <[out := File plain]> (w_fs w).
Proof.
  intros Hd Hso Hin Hcreate Hnd Hdec.
  destruct (open_input_run _ _ _ Hin)
    as (h & w1 & Hopen & Hfs1 & Hden1 & Hsi1 & _ & _ & _ & Hread).
  destruct (Hread w1 Hsi1) as (w3 & Hrd & Hfs3 & Hden3 & _).
  unfold transfer, decompress_transfer, open_output, write_output.
  rewrite Hd, Hso. run_M. rewrite Hopen, Hrd. cbn [reader_yield].
  rewrite Hdec, os_Create_run, Hden3, Hden1, Hcreate, Hfs3, Hfs1.
  destruct (w_fs w !! out) as [[old|]|] eqn:Hout; [|done|];
    unfold write_file; run_M; eexists; (split; [done|]); wsimpl;
    by rewrite lookup_insert_eq, insert_insert_eq, Hfs3, Hfs1.
Qed.

(** X5. Decompressing a file whose contents do not decode, to a name that
    is free: the job fails with the decoder's error; the output file has
    been created and is left behind, holding what was decoded before the
    error; the input is not removed, [-k] or not. *)
Theorem X5_bad_stream_leaves_partial_output
    (c : flags) (inFilePath out : string) (w : world)
    (d plain : bytes) (e : error) :
  test c = false → stdin c = false → stdout c = false → decompress c = true →
  suffix c ≠ "" → inFilePath ≠ "-" →
  w_fs w !! inFilePath = Some (File d) →
  (output_name c inFilePath w).1 = Ok out →
  w_fs w !! out = None →
  w_denied w OpOpen inFilePath = false → w_denied w OpCreate out = false →
  bz_decode d = (plain, Some e) →
  ∃ w',
    processFile c inFilePath w = (Err e, w') ∧
    w_fs w' = <[out := File plain]> (w_fs w) ∧
    w_fs w' !! inFilePath = Some (File d).
Proof.
  intros Ht Hin Hso Hd Hs Hdash Hfs Hname Hfree Hopen Hcreate Hdec.
  pose proof (output_name_neq _ _ _ _ Hname) as Hneq.
  rewrite processFile_run by auto using flags_conflict_named.
  run_M. rewrite (resolve_named _ _ _ d) by done. run_M.
  set (wa := add_trace (OpLstat, inFilePath) w).
  rewrite (output_name_indep _ _ w wa) in Hname.
  destruct (output_name c inFilePath wa) as [r1 w1] eqn:Hon.
  cbn in Hname. subst r1.
  destruct (output_name_frame _ _ _ _ _ Hon) as (Hf1 & Hd1 & _).
  subst wa. wsimpl.
  unfold check_output. run_M. rewrite os_Lstat_run, Hf1, Hfree.
  destruct (decompress_transfer_bad c inFilePath out
              (add_trace (OpLstat, out) w1) d plain e)
    as (w2 & -> & Hfs2); try done.
  { unfold input_bytes. wsimpl. rewrite decide_False by done.
    by rewrite Hd1, Hopen, Hf1, Hfs. }
  { wsimpl. by rewrite Hd1. }
  { wsimpl. by rewrite Hf1, Hfree. }
  wsimpl. rewrite Hf1 in Hfs2. exists w2. split; [done|]. split; [done|].
  by rewrite Hfs2, lookup_insert_ne.
Qed.

(** X6. Compressing a regular file whose name already ends in the dot and
    the suffix: the job fails with the error that says so, having done
    nothing but the [Lstat] of its input. *)
Theorem X6_compress_refuses_suffixed_input
    (c : flags) (inFilePath : string) (w : world) (d : bytes) :
  test c = false → stdin c = false → stdout c = false → decompress c = false →
  suffix c ≠ "" →
  w_fs w !! inFilePath = Some (File d) →
  HasSuffix inFilePath ("." +:+ suffix c) = true →
  processFile c inFilePath w =
    (Err (Errorf ("Input file " +:+ inFilePath +:+ " already has ." +:+
                  suffix c +:+ " suffix.")),
     add_trace (OpLstat, inFilePath) w).
Proof.
  intros Ht Hin Hso Hd Hs Hfs Hsuf.
  rewrite processFile_run by auto using flags_conflict_named.
  run_M. rewrite (resolve_named _ _ _ d) by done. run_M.
  unfold output_name. by rewrite Hd, Hsuf.
Qed.

(** X7. Compressing a regular file to a named file, when the name does not
    end in the suffix, input name plus dot plus suffix is free, the system
    lets the job open, create and remove, and the codec takes the level:
    the job succeeds, the new file holds the encoding of the input, and the
    input is removed unless [-k] is set; no other file changes. *)
Theorem X7_compress_named
    (c : flags) (inFilePath : string) (w : world) (d : bytes) :
  test c = false → stdin c = false → stdout c = false → decompress c = false →
  suffix c ≠ "" → inFilePath ≠ "-" →
  w_fs w !! inFilePath = Some (File d) →
  HasSuffix inFilePath ("." +:+ suffix c) = false →
  w_fs w !! (inFilePath +:+ "." +:+ suffix c) = None →
  w_denied w OpOpen inFilePath = false →
  w_denied w OpCreate (inFilePath +:+ "." +:+ suffix c) = false →
  (keep c = false → w_denied w OpRemove inFilePath = false) →
  bz_new_writer (level c) = None →
  ∃ w',
    processFile c inFilePath w = (Ok tt, w') ∧
    w_fs w' =
      (if keep c then id else delete inFilePath)
        (<[inFilePath +:+ "." +:+ suffix c := File (bz_encode (level c) d)]>
           (w_fs w)).
Proof.
  intros Ht Hin Hso Hd Hs Hdash Hfs Hsuf Hfree Hopen Hcreate Hremove Hnw.
  destruct (processFile_named c inFilePath (inFilePath +:+ "." +:+ suffix c)
              w w d) as (w' & Hrun & _ & Hfs'); try done.
  { unfold output_name. by rewrite Hd, Hsuf. }
  { by rewrite Hd. }
  exists w'. split; [done|]. by rewrite Hd in Hfs'.
Qed.

End NamedJobs.

Lemma X4_witness :
  w_fs (processFile (H := Sample.toy) (Sample.with_decompress Sample.defaults)
          "report.txt" Sample.w_report).2 !! "report.txt"
  = Some (File Sample.hello).
Proof.
  apply (X4_failed_job_keeps_input (H := Sample.toy)
           (Sample.with_decompress Sample.defaults) "report.txt"
           Sample.w_report _ Sample.hello
           (ErrorString "bzip2: corrupted input")).
  - reflexivity.
  - reflexivity.
Defined.

Lemma X5_witness :
  ∃ w',
    processFile (H := Sample.toy) (Sample.with_decompress Sample.defaults)
      "report.txt" Sample.w_report
    = (Err (ErrorString "bzip2: corrupted input"), w') ∧
    w_fs w' = <[ "report.txt.out" := File [] ]> (w_fs Sample.w_report) ∧
    w_fs w' !! "report.txt" = Some (File Sample.hello).
Proof.
  apply (X5_bad_stream_leaves_partial_output (H := Sample.toy)
           (Sample.with_decompress Sample.defaults) "report.txt"
           "report.txt.out" Sample.w_report Sample.hello []);
    try reflexivity; discriminate.
Defined.

Lemma X6_witness :
  processFile (H := Sample.toy) Sample.defaults "a.tar.bz2" Sample.w_dotted =
    (Err (Errorf "Input file a.tar.bz2 already has .bz2 suffix."),
     add_trace (OpLstat, "a.tar.bz2") Sample.w_dotted).
Proof.
  apply (X6_compress_refuses_suffixed_input (H := Sample.toy) Sample.defaults
           "a.tar.bz2" Sample.w_dotted (x42 :: Sample.hello));
    try reflexivity; discriminate.
Defined.

Lemma X7_witness :
  ∃ w',
    processFile (H := Sample.toy) Sample.defaults "report.txt" Sample.w_report
      = (Ok tt, w') ∧
    w_fs w' =
      delete "report.txt"
        (<[ "report.txt.bz2" := File (x42 :: Sample.hello) ]>
           (w_fs Sample.w_report)).
Proof.
  apply (X7_compress_named (H := Sample.toy) Sample.defaults "report.txt"
           Sample.w_report Sample.hello);
    try reflexivity; discriminate.
Defined.

Lemma X8_witness :
  ∃ w1 w2,
    processFile (H := Sample.toy) Sample.defaults "report.txt" Sample.w_report
      = (Ok tt, w1) ∧
    w_fs w1 !! "report.txt.bz2" = Some (File (x42 :: Sample.hello)) ∧
    w_fs w1 !! "report.txt" = None ∧
    processFile (H := Sample.toy) (Sample.with_decompress Sample.defaults)
      "report.txt.bz2" w1 = (Ok tt, w2) ∧
    w_fs w2 = w_fs Sample.w_report.
Proof.
  apply (round_trip_on_disk (H := Sample.toy) Sample.defaults
           (Sample.with_decompress Sample.defaults) "report.txt"
           Sample.w_report Sample.hello);
    try reflexivity; try discriminate.
  - apply toy_inverse.
  - cbn. lia.
  - intros op. split; reflexivity.
Defined.

(** ** Running without arguments *)

(** A run over the single operand ["-"] is one call of [processFile]. *)
Lemma run_in_order_dash `{Codec} (c : flags) (w : world) :
  run_in_order c ["-"] w = run_file c "-" (start w).
Proof. reflexivity. Qed.

Section NoArguments.
Context `{Codec}.

(** X9. The program as a filter.  Without arguments, with [-c] given or
    standard output not a terminal, and none of [-t], [-f], [-k], [-S]: the
    one job reads standard input to its end and writes its encoding (with
    [-d], its decoding) to standard output; it makes no system call, changes
    no file, and the run ends without error. *)
Theorem X9_filter (h : host) (c0 c : flags) (files : list string) (w : world) :
  main_setup h c0 [] = Run c files →
  test c0 = false → force c0 = false → keep c0 = false →
  setByUser c0 "S" = false →
  stdout c0 = true ∨ stdout_is_terminal h = false →
  (if decompress c0 then (bz_decode (w_stdin w)).2 = None
   else bz_new_writer (level c) = None) →
  let p := run_in_order c files w in
  files = ["-"] ∧
  hasErrors p = false ∧
  p_entries p = [("-", Ok tt)] ∧
  w_stdout (p_world p) =
    w_stdout w ++
    (if decompress c0 then (bz_decode (w_stdin w)).1
     else bz_encode (level c) (w_stdin w)) ∧
  w_stdin (p_world p) = [] ∧
  w_fs (p_world p) = w_fs w ∧
  w_trace (p_world p) = w_trace w.
Proof.
  intros Hrun Ht Hf Hk HS Hout Hcodec p.
  destruct (main_setup_Run _ _ _ _ _ Hrun)
    as (_ & _ & _ & Hd & Hfo & _ & Hke & _ & Hte & _ & Hvi & Hsi & Hfiles & Hso).
  cbn in Hsi, Hfiles, Hso. subst files.
  assert (Hso' : stdout c = true).
  { rewrite Hso. destruct Hout as [->| ->]; by rewrite ?orb_true_r. }
  assert (HS' : setByUser c "S" = false) by (unfold setByUser in *; by rewrite Hvi).
  assert (Hjob : ∃ w',
    processFile c "-" w = (Ok tt, w') ∧
    w_stdout w' =
      w_stdout w ++
      (if decompress c0 then (bz_decode (w_stdin w)).1
       else bz_encode (level c) (w_stdin w)) ∧
    w_stdin w' = [] ∧ w_fs w' = w_fs w ∧ w_trace w' = w_trace w).
  { unfold processFile, check_flags, flags_conflict.
    rewrite Hso', HS', Hfo, Hf, Hke, Hk, Hte, Ht. cbn [andb]. run_M.
    unfold resolve. rewrite Hsi, Hso', HS'. cbn [negb].
    unfold transfer, decompress_transfer, compress_transfer, open_output,
      write_output, open_input, remove_original.
    rewrite Hd, Hso'. run_M. cbn [negb andb].
    rewrite decide_True by done. cbn [read_all].
    destruct (decompress c0).
    - cbn [reader_yield]. destruct (bz_decode (w_stdin w)) as [plain err].
      cbn in Hcodec. subst err. rewrite andb_false_r. by eexists.
    - rewrite Hcodec. destruct (verbose c); by eexists. }
  destruct Hjob as (w' & Hjob & Hw').
  assert (Hp : p = mkProc w' false [("-", Ok tt)]).
  { subst p. rewrite run_in_order_dash. unfold run_file, start.
    cbn [p_world hasErrors p_entries]. by rewrite Hjob. }
  rewrite Hp. cbn. split; [done|]. split; [done|]. split; [done|]. exact Hw'.
Qed.

(** X10. No compressed data on a terminal.  Without arguments, without
    [-c] and [-t], and with standard output a terminal, the one job fails
    with "reading from stdin, can write only to stdout": standard input is
    not read, nothing is written to standard output, no system call is made,
    and the error flag is set. *)
Theorem X10_terminal_refused (h : host) (c0 c : flags) (files : list string)
    (w : world) :
  main_setup h c0 [] = Run c files →
  test c0 = false → stdout c0 = false → stdout_is_terminal h = true →
  let p := run_in_order c files w in
  files = ["-"] ∧
  hasErrors p = true ∧
  p_entries p =
    [("-", Err (Errorf "reading from stdin, can write only to stdout"))] ∧
  w_stdin (p_world p) = w_stdin w ∧
  w_stdout (p_world p) = w_stdout w ∧
  w_fs (p_world p) = w_fs w ∧
  w_trace (p_world p) = w_trace w.
Proof.
  intros Hrun Ht Hout Htty p.
  destruct (main_setup_Run _ _ _ _ _ Hrun)
    as (_ & _ & _ & _ & _ & _ & _ & _ & Hte & _ & _ & Hsi & Hfiles & Hso).
  cbn in Hsi, Hfiles, Hso. subst files.
  rewrite Hout, Htty in Hso. cbn in Hso.
  assert (Hjob : processFile c "-" w =
    (Err (Errorf "reading from stdin, can write only to stdout"), w)).
  { rewrite processFile_run by (rewrite ?Hte; auto using flags_conflict_named).
    unfold resolve. rewrite Hsi, Hso. by run_M. }
  assert (Hp : p = report "-"
                     (Errorf "reading from stdin, can write only to stdout")
                     (record "-"
                        (Err (Errorf
                                "reading from stdin, can write only to stdout"))
                        (start w))).
  { subst p. rewrite run_in_order_dash. unfold run_file, start.
    cbn [p_world hasErrors p_entries]. by rewrite Hjob. }
  rewrite Hp. cbn. done.
Qed.

End NoArguments.

Lemma X9_witness :
  w_stdout (p_world (run_in_order (H := Sample.toy)
                       (set_stdout_flag true
                          (set_stdin_flag true (set_cores 8 Sample.defaults)))
                       ["-"] Sample.w_piped))
  = x42 :: Sample.hello.
Proof.
  apply (X9_filter (H := Sample.toy) (mkHost 8 false) Sample.defaults
           (set_stdout_flag true
              (set_stdin_flag true (set_cores 8 Sample.defaults)))
           ["-"] Sample.w_piped);
    try reflexivity.
  right. reflexivity.
Defined.

Lemma X10_witness :
  hasErrors (run_in_order (H := Sample.toy)
               (set_stdin_flag true (set_cores 8 Sample.defaults))
               ["-"] Sample.w_piped) = true.
Proof.
  apply (X10_terminal_refused (H := Sample.toy) Sample.a_host Sample.defaults
           (set_stdin_flag true (set_cores 8 Sample.defaults))
           ["-"] Sample.w_piped);
    reflexivity.
Defined.

(** ** Directories are neither made nor removed *)

Global Instance dirs_same_preorder : PreOrder dirs_same.
Proof.
  split; [by intros m q|].
  intros m1 m2 m3 H12 H23 q. etrans; [apply H23|apply H12].
Qed.

Lemma dirs_same_insert_file (m : gmap string node) (p : string) (d : bytes) :
  m !! p ≠ Some Dir → dirs_same m (<[p := File d]> m).
Proof.
  intros Hp q. destruct (decide (p = q)) as [<-|Hne].
  - rewrite lookup_insert_eq. split; [done|by intros ?].
  - by rewrite lookup_insert_ne.
Qed.

Lemma dirs_same_delete (m : gmap string node) (p : string) :
  m !! p ≠ Some Dir → dirs_same m (delete p m).
Proof.
  intros Hp q. destruct (decide (p = q)) as [<-|Hne].
  - rewrite lookup_delete_eq. split; [done|by intros ?].
  - by rewrite lookup_delete_ne.
Qed.

Lemma os_Remove_file_dirs (p : string) (w w' : world) (r : result unit) (d : bytes) :
  w_fs w !! p = Some (File d) →
  os_Remove p w = (r, w') → dirs_same (w_fs w) (w_fs w').
Proof.
  intros Hp. rewrite os_Remove_run, Hp.
  destruct (w_denied w OpRemove p); intros [= _ <-]; cbn; [done|].
  apply dirs_same_delete. by rewrite Hp.
Qed.

Section Directories.
Context `{Codec}.

Lemma transfer_dirs (c : flags) (inFilePath out : string) :
  frames dirs_same (transfer c inFilePath out).
Proof.
  unfold transfer, decompress_transfer, compress_transfer, open_output,
    write_output, open_input.
  frames_with ltac:(intros; apply dirs_same_insert_file; congruence).
Qed.

(** Resolving the names removes no directory, and an input it accepts for
    a named output is a regular file. *)
Lemma resolve_dirs (c : flags) (inFilePath : string) (w w1 : world)
    (r : result string) :
  resolve c inFilePath w = (r, w1) →
  dirs_same (w_fs w) (w_fs w1) ∧
  (stdout c = false → is_ok r = true →
   ∃ d, w_fs w !! inFilePath = Some (File d)).
Proof.
  unfold resolve. destruct (stdin c).
  { destruct (stdout c); cbn [negb]; [|by intros [= <- <-]].
    destruct (setByUser c "S"); intros [= <- <-]; by split. }
  run_M. rewrite os_Lstat_run.
  destruct (w_fs w !! inFilePath) as [[d|]|] eqn:Hf; cbn [IsDir];
    try by intros [= <- <-].
  destruct (stdout c) eqn:Hso; cbn [negb]; [by intros [= <- <-]|].
  destruct (decide (suffix c = "")); [by intros [= <- <-]|].
  destruct (output_name c inFilePath _) as [[out|e] w0] eqn:Hon;
    destruct (output_name_frame _ _ _ _ _ Hon) as (Hf0 & Hd0 & _);
    cbn [w_fs add_trace] in Hf0;
    [|intros [= <- <-]; by rewrite Hf0].
  unfold check_output. run_M. rewrite os_Lstat_run.
  destruct (w_fs w0 !! out) as [g|] eqn:Hg.
  2:{ intros [= <- <-]. cbn. rewrite Hf0. split; [done|by eexists]. }
  destruct (force c); cbn [negb];
    [|intros [= <- <-]; cbn; by rewrite Hf0].
  destruct g as [d'|]; cbn [IsDir];
    [|intros [= <- <-]; cbn; by rewrite Hf0].
  rewrite os_Remove_run. cbn [w_fs w_denied add_trace]. rewrite Hg.
  destruct (w_denied w0 OpRemove out); intros [= <- <-]; cbn.
  - by rewrite Hf0.
  - split; [|by eexists]. rewrite <- Hf0. apply dirs_same_delete.
    by rewrite Hg.
Qed.

Lemma processFile_dirs (c : flags) (inFilePath : string) (w w' : world)
    (r : result unit) :
  processFile c inFilePath w = (r, w') → dirs_same (w_fs w) (w_fs w').
Proof.
  unfold processFile, check_flags.
  destruct (flags_conflict c) as [e0|]; run_M; [by intros [= _ <-]|].
  destruct (test c).
  { intros Hrun. by apply test_file_fs in Hrun as (_ & <- & _). }
  destruct (resolve c inFilePath w) as [[out|e1] w1] eqn:Hres;
    destruct (resolve_dirs _ _ _ _ _ Hres) as [Hd1 Hfile];
    destruct (resolve_keeps_input _ _ _ _ _ Hres) as [Hin1 Hneq];
    [|by intros [= _ <-]].
  destruct (transfer c inFilePath out w1) as [[[]|e2] w2] eqn:Htr;
    pose proof (transfer_dirs _ _ _ _ _ _ Htr) as (_ & Hd2 & _);
    [|intros [= _ <-]; by etrans].
  unfold remove_original.
  destruct (stdout c) eqn:Hso; cbn [negb andb]; [intros [= _ <-]; by etrans|].
  destruct (negb (keep c) && _); [|intros [= _ <-]; by etrans].
  destruct (Hfile eq_refl eq_refl) as [d Hd].
  apply transfer_frame in Htr as (_ & Hsame & _).
  intros Hrm. etrans; [exact Hd1|]. etrans; [exact Hd2|].
  eapply (os_Remove_file_dirs _ _ _ _ d); [|exact Hrm].
  rewrite Hsame, Hin1; [done|]. intros ->. by eapply Hneq.
Qed.

(** With [-c] or [-t] a job changes no file. *)
Lemma processFile_fs (c : flags) (inFilePath : string) (w w' : world)
    (r : result unit) :
  stdout c = true ∨ test c = true →
  processFile c inFilePath w = (r, w') → w_fs w' = w_fs w.
Proof.
  intros Hmode. unfold processFile, check_flags.
  destruct (flags_conflict c) as [e0|]; run_M; [by intros [= _ <-]|].
  destruct (test c) eqn:Ht.
  { intros Hrun. by apply test_file_fs in Hrun as (_ & <- & _). }
  destruct Hmode as [Hso|]; [|done].
  assert (Hres : frames eq (resolve c inFilePath)).
  { unfold resolve. rewrite Hso. cbn [negb]. frames_with idtac. }
  destruct (resolve c inFilePath w) as [[out|e1] w1] eqn:E1;
    apply Hres in E1 as (_ & E1 & _); [|by intros [= _ <-]].
  destruct (transfer c inFilePath out w1) as [[[]|e2] w2] eqn:E2;
    apply (transfer_stdout_fs _ _ _ Hso) in E2 as (_ & E2 & _);
    [|intros [= _ <-]; congruence].
  unfold remove_original. rewrite Hso. cbn. intros [= _ <-]. congruence.
Qed.

End Directories.

(** ** What is written to standard output *)

Lemma silent_ret {A} (a : A) : silent (mret a).
Proof. by intros w r w' [= _ <-]. Qed.

Lemma silent_fail {A} (e : error) : silent (@fail A e).
Proof. by intros w r w' [= _ <-]. Qed.

Lemma silent_bind {A B} (m : M A) (f : A → M B) :
  silent m → (∀ a, silent (f a)) → silent (m ≫= f).
Proof.
  intros Hm Hf w r w'. unfold mbind, M_bind.
  destruct (m w) as [[a|e] w1] eqn:E.
  - intros Hfa. etrans; [by eapply Hf|by eapply Hm].
  - intros [= _ <-]. by eapply Hm.
Qed.

Lemma silent_try {A} (m : M A) : silent m → silent (try m).
Proof.
  intros Hm w r w'. unfold try. destruct (m w) as [r1 w1] eqn:E.
  intros [= _ <-]. by eapply Hm.
Qed.

Lemma silent_eprint (d : diag) : silent (eprint d).
Proof. by intros w r w' [= _ <-]. Qed.

Lemma silent_os_stat (op : osop) (name p : string) : silent (os_stat op name p).
Proof. intros w r w'. rewrite os_stat_run. by intros [= _ <-]. Qed.

Lemma silent_os_Open (p : string) : silent (os_Open p).
Proof.
  intros w r w'. unfold os_Open. run_M. cbn.
  destruct (w_denied w OpOpen p); [|destruct (w_fs w !! p)];
    by intros [= _ <-].
Qed.

Lemma silent_read_all (h : handle) : silent (read_all h).
Proof. intros w r w'. destruct h as [|p [d|]]; cbn; by intros [= _ <-]. Qed.

Lemma silent_os_Create (p : string) : silent (os_Create p).
Proof.
  intros w r w'. rewrite os_Create_run.
  destruct (w_denied w OpCreate p); [|destruct (w_fs w !! p) as [[]|]];
    by intros [= _ <-].
Qed.

Lemma silent_write_file (p : string) (b : bytes) : silent (write_file p b).
Proof. by intros w r w' [= _ <-]. Qed.

Lemma silent_os_Remove (p : string) : silent (os_Remove p).
Proof.
  intros w r w'. rewrite os_Remove_run.
  destruct (w_denied w OpRemove p);
    [|destruct (w_fs w !! p) as [[]|]; [|destruct (has_entry _ _)|]];
    by intros [= _ <-].
Qed.

Ltac silent_tac :=
  repeat first
    [ match goal with
      | |- silent (if ?b then _ else _) => destruct b
      | |- silent (match ?x with _ => _ end) => destruct x
      | |- ∀ _, _ => intro; cbn beta
      end
    | apply silent_ret | apply silent_fail | apply silent_eprint
    | apply silent_os_stat | apply silent_os_Open | apply silent_read_all
    | apply silent_os_Create | apply silent_write_file | apply silent_os_Remove
    | apply silent_try | apply silent_bind ].

(** Without [-c], and in test mode, a job writes nothing to standard
    output. *)
Lemma processFile_silent `{Codec} (c : flags) (inFilePath : string) :
  stdout c = false ∨ test c = true → silent (processFile c inFilePath).
Proof.
  intros Hmode. unfold processFile, check_flags.
  apply silent_bind; [silent_tac|intros _].
  destruct (test c) eqn:Ht.
  { unfold test_file, open_input. silent_tac. }
  destruct Hmode as [Hso|]; [|done].
  unfold resolve, output_name, check_output, transfer, decompress_transfer,
    compress_transfer, remove_original, open_output, write_output, open_input.
  rewrite Hso. silent_tac.
Qed.

(** ** From the jobs to the run *)

Section RunInvariants.
Context `{Codec}.
Variable c : flags.
Variable R : relation world.
Context {R_pre : PreOrder R}.
Hypothesis R_stderr : ∀ d w, R w (add_stderr d w).
Hypothesis R_trace : ∀ e w, R w (add_trace e w).
Hypothesis R_processFile :
  ∀ path w r w', processFile c path w = (r, w') → R w w'.

Lemma maintains_id : maintains R (λ p, p).
Proof. by intros p. Qed.

Lemma maintains_compose (F G : proc → proc) :
  maintains R F → maintains R G → maintains R (λ p, G (F p)).
Proof. intros HF HG p. etrans; [apply HF|apply HG]. Qed.

Lemma maintains_report (path : string) (e : error) :
  maintains R (λ p, report path e (record path (Err e) p)).
Proof. intros p. apply R_stderr. Qed.

Lemma maintains_run_file (path : string) : maintains R (run_file c path).
Proof.
  intros p. unfold run_file.
  destruct (processFile c path (p_world p)) as [r w1] eqn:E.
  apply R_processFile in E. destruct r; cbn; [done|].
  etrans; [exact E|apply R_stderr].
Qed.

Lemma maintains_walkFn (path : string) (fi : option node) (err : option error) :
  maintains R (walkFn c path fi err).
Proof.
  unfold walkFn. destruct err as [e|]; [apply maintains_report|].
  destruct fi as [n|]; [|apply maintains_id].
  destruct (negb (IsDir n)); [apply maintains_run_file|apply maintains_id].
Qed.

Lemma maintains_fold {A} (body : A → proc → proc) (l : list A) :
  (∀ a, maintains R (body a)) →
  maintains R (λ p, fold_left (λ p a, body a p) l p).
Proof.
  intros Hb. induction l as [|a l IH]; [apply maintains_id|].
  cbn. apply (maintains_compose (body a) _ (Hb a) IH).
Qed.

Lemma sys_readDirNames_world (path : string) (p : proc) :
  p_world (sys (readDirNames path) p).2 =
    add_trace (OpReadDir, path) (p_world p).
Proof.
  unfold sys, readDirNames. run_M. cbn.
  by destruct (w_denied (p_world p) OpReadDir path).
Qed.

Lemma maintains_walk (depth : nat) (path : string) (info : node) :
  maintains R (walk c depth path info).
Proof.
  revert path info. induction depth as [|depth IH]; intros path info.
  - cbn [walk]. destruct (negb (IsDir info));
      [apply maintains_walkFn|apply maintains_id].
  - cbn [walk]. destruct (negb (IsDir info)); [apply maintains_walkFn|].
    intros p. pose proof (sys_readDirNames_world path p) as Hrd.
    destruct (sys (readDirNames path) p) as [names p1]. cbn in Hrd.
    etrans; [apply (R_trace (OpReadDir, path))|]. rewrite <- Hrd.
    destruct names as [names|e]; [|apply maintains_walkFn].
    apply (maintains_compose (walkFn c path (Some info) None));
      [apply maintains_walkFn|].
    apply maintains_fold. intros name q.
    rewrite sys_os_Lstat.
    etrans; [apply (R_trace (OpLstat, filepath_Join path name))|].
    set (q' := mkProc _ _ _).
    change (add_trace _ (p_world q)) with (p_world q').
    destruct (w_fs (p_world q) !! _) as [fi|].
    + apply IH.
    + apply maintains_walkFn.
Qed.

Lemma maintains_job (file : string) : maintains R (job c file).
Proof.
  intros p. unfold job.
  destruct (decide (file = "-")); [apply maintains_run_file|].
  unfold sys at 1, os_Stat. rewrite os_stat_run.
  etrans; [apply (R_trace (OpStat, file))|].
  set (p1 := mkProc _ _ _).
  change (add_trace _ (p_world p)) with (p_world p1).
  destruct (w_fs (p_world p) !! file) as [info|]; [|apply maintains_report].
  destruct (IsDir info); [|apply maintains_run_file].
  destruct (recursive c); [|apply R_stderr].
  unfold Walk. rewrite sys_os_Lstat.
  etrans; [apply (R_trace (OpLstat, file))|].
  set (p2 := mkProc _ _ _).
  change (add_trace _ (p_world p1)) with (p_world p2).
  destruct (w_fs (p_world p1) !! file) as [info'|].
  - apply maintains_walk.
  - apply maintains_walkFn.
Qed.

(** What stderr, the system calls of the traversal and every job keep,
    holds in every state the goroutines reach. *)
Lemma maintains_reachable (files : list string) (w : world) (s : sched) :
  reachable c files w s → R w (p_world (s_proc s)).
Proof.
  unfold reachable. revert s.
  apply (rtc_ind_r (λ s, R w (p_world (s_proc s)))); [done|].
  intros s0 s1 _ Hstep IH.
  inversion Hstep; subst; cbn [s_proc] in *; try done.
  etrans; [exact IH|apply maintains_job].
Qed.

End RunInvariants.

Section WholeRun.
Context `{Codec}.
Variable c : flags.

(** X11. The program makes and removes no directory.  In every state the
    goroutines reach, whatever the flags, the arguments and the order of
    the goroutines' bodies, the directories of the file system are those it
    had at the start: an output is never created over a directory, [-f]
    removes an output in the way only when it is no directory, and the
    original that is removed is a regular file. *)
Theorem X11_directories_stay (files : list string) (w : world) (s : sched) :
  reachable c files w s → dirs_same (w_fs w) (w_fs (p_world (s_proc s))).
Proof.
  assert (PreOrder (λ w w' : world, dirs_same (w_fs w) (w_fs w'))).
  { split; [by intros ?|]. intros w1 w2 w3 H12 H23. by etrans. }
  apply (maintains_reachable c (λ w w', dirs_same (w_fs w) (w_fs w')));
    try done.
  intros path w0 r w' Hrun. by eapply processFile_dirs.
Qed.

(** X12. With [-c], and in test mode, the program changes no file: in every
    state the goroutines reach the file system is the one of the start. *)
Theorem X12_no_file_changes (files : list string) (w : world) (s : sched) :
  stdout c = true ∨ test c = true →
  reachable c files w s → w_fs (p_world (s_proc s)) = w_fs w.
Proof.
  intros Hmode.
  assert (PreOrder (λ w w' : world, w_fs w' = w_fs w)).
  { split; [by intros ?|]. intros w1 w2 w3 H12 H23. congruence. }
  apply (maintains_reachable c (λ w w', w_fs w' = w_fs w)); try done.
  intros path w0 r w' Hrun. by eapply processFile_fs.
Qed.

(** X13. Without [-c], and in test mode, the program writes nothing to
    standard output: messages, the ratio line of [-v] and the log of failed
    jobs go to standard error. *)
Theorem X13_stdout_untouched (files : list string) (w : world) (s : sched) :
  stdout c = false ∨ test c = true →
  reachable c files w s → w_stdout (p_world (s_proc s)) = w_stdout w.
Proof.
  intros Hmode.
  assert (PreOrder (λ w w' : world, w_stdout w' = w_stdout w)).
  { split; [by intros ?|]. intros w1 w2 w3 H12 H23. congruence. }
  apply (maintains_reachable c (λ w w', w_stdout w' = w_stdout w)); try done.
  intros path w0 r w' Hrun. by eapply processFile_silent.
Qed.

(** *** The goroutines come to their end *)

Lemma work_left_insert (pr : proc) (sem sem' : nat)
    (jobs : list (string * gstate)) (i : nat) (j j' : string * gstate) :
  jobs !! i = Some j →
  (work_left (mkSched pr sem' (<[i := j']> jobs)) + steps_left j =
   work_left (mkSched pr sem jobs) + steps_left j')%nat.
Proof.
  unfold work_left. cbn [s_jobs]. revert i.
  induction jobs as [|a jobs IH]; intros [|i] Hi; try done.
  - injection Hi as ->.
    change (<[0%nat := j']> (j :: jobs)) with (j' :: jobs). cbn [foldr]. lia.
  - change (<[S i := j']> (a :: jobs)) with (a :: <[i := j']> jobs).
    cbn [foldr]. specialize (IH i Hi). lia.
Qed.

Lemma step_work_left (s s' : sched) :
  step c s s' → work_left s = S (work_left s').
Proof.
  intros Hstep.
  inversion Hstep as [i f pr sem jobs Hi Hlt|i f pr sem jobs Hi|i f pr sem jobs Hi];
    subst.
  - pose proof (work_left_insert pr sem (S sem) jobs i _ (f, Running) Hi).
    cbn in *. lia.
  - pose proof (work_left_insert pr sem sem jobs i _ (f, Returning) Hi) as Hw.
    unfold work_left in *. cbn in *. lia.
  - pose proof (work_left_insert pr (S sem) sem jobs i _ (f, Finished) Hi).
    cbn in *. lia.
Qed.

Lemma holders_lookup (jobs : list (string * gstate)) (i : nat)
    (j : string * gstate) :
  jobs !! i = Some j → holds_slot j = true →
  (1 ≤ length (filter (λ j, holds_slot j = true) jobs))%nat.
Proof.
  revert i. induction jobs as [|a jobs IH]; intros [|i] Hi Hj; try done.
  - injection Hi as ->. rewrite filter_cons, decide_True by done.
    cbn [length]. lia.
  - rewrite filter_cons. specialize (IH i Hi Hj).
    case_decide; cbn [length]; lia.
Qed.

(** Some goroutine is in its body, or past it, or none holds a slot and
    one has not started, or all are done. *)
Lemma jobs_cases (jobs : list (string * gstate)) :
  (∃ i f, jobs !! i = Some (f, Running)) ∨
  (∃ i f, jobs !! i = Some (f, Returning)) ∨
  (length (filter (λ j, holds_slot j = true) jobs) = 0%nat ∧
   ((∃ i f, jobs !! i = Some (f, Spawned)) ∨
    Forall (λ j, snd j = Finished) jobs)).
Proof.
  induction jobs as [|[f g] jobs IH].
  { right. right. split; [done|]. right. constructor. }
  destruct g.
  - destruct IH as [(i & f' & Hi)|[(i & f' & Hi)|[Hh _]]].
    + left. by exists (S i), f'.
    + right. left. by exists (S i), f'.
    + right. right. rewrite filter_cons, decide_False by done.
      split; [done|]. left. by exists 0%nat, f.
  - left. by exists 0%nat, f.
  - right. left. by exists 0%nat, f.
  - destruct IH as [(i & f' & Hi)|[(i & f' & Hi)|[Hh [(i & f' & Hi)|Hall]]]].
    + left. by exists (S i), f'.
    + right. left. by exists (S i), f'.
    + right. right. rewrite filter_cons, decide_False by done.
      split; [done|]. left. by exists (S i), f'.
    + right. right. rewrite filter_cons, decide_False by done.
      split; [done|]. right. by constructor.
Qed.

(** With room for one goroutine, a state in which the channel holds one
    element per holder of a slot is finished or can take a step. *)
Lemma step_or_finished (s : sched) :
  (1 ≤ capacity c)%nat → s_sem s = holders s →
  all_finished s ∨ ∃ s', step c s s'.
Proof.
  intros Hcap Hsem. destruct s as [pr sem jobs]. unfold holders in Hsem.
  cbn [s_sem s_jobs] in Hsem.
  destruct (jobs_cases jobs)
    as [(i & f & Hi)|[(i & f & Hi)|[Hh [(i & f & Hi)|Hall]]]].
  - right. eexists. by eapply step_body.
  - right. pose proof (holders_lookup jobs i _ Hi eq_refl).
    destruct sem as [|sem]; [lia|]. eexists. by eapply step_release.
  - right. eexists. eapply step_acquire; [done|lia].
  - by left.
Qed.

(** X15. The semaphore cannot block the program for good.  With room for
    one goroutine at least, every state the goroutines reach can be
    continued to one in which all of them are done, so that [wg.Wait()]
    returns, and the channel is empty there: every slot taken was given
    back. *)
Theorem X15_no_deadlock (files : list string) (w : world) (s : sched) :
  (1 ≤ capacity c)%nat →
  reachable c files w s →
  ∃ s', rtc (step c) s s' ∧ all_finished s' ∧ s_sem s' = 0%nat.
Proof.
  intros Hcap. remember (work_left s) as n eqn:Hn. revert s Hn.
  induction n as [n IH] using lt_wf_ind. intros s Hn Hreach.
  destruct (sem_invariant c files w s Hreach) as [Hsem _].
  destruct (step_or_finished s Hcap Hsem) as [Hfin|[s1 Hstep]].
  - exists s. split; [done|]. split; [done|].
    rewrite Hsem. unfold holders.
    destruct (jobs_cases (s_jobs s))
      as [(i & f & Hi)|[(i & f & Hi)|[Hh _]]]; [| |done].
    + by apply (Forall_lookup_1 _ _ _ _ Hfin) in Hi.
    + by apply (Forall_lookup_1 _ _ _ _ Hfin) in Hi.
  - pose proof (step_work_left _ _ Hstep) as Hw.
    destruct (IH (work_left s1) ltac:(lia) s1 eq_refl) as (s' & Hrun & Hfin).
    { eapply rtc_r; [exact Hreach|exact Hstep]. }
    exists s'. split; [|done]. by eapply rtc_l.
Qed.

End WholeRun.

Lemma X11_witness :
  dirs_same (w_fs Sample.w_tree)
    (w_fs (p_world (run_in_order (H := Sample.toy) Sample.recursive_4
                      ["docs"] Sample.w_tree))).
Proof.
  apply (X11_directories_stay (H := Sample.toy) Sample.recursive_4 ["docs"]
           Sample.w_tree
           (mkSched (run_in_order (H := Sample.toy) Sample.recursive_4
                       ["docs"] Sample.w_tree)
              0 [("docs", Finished)])).
  apply (run_to_end (H := Sample.toy) Sample.recursive_4 [] ["docs"]
           (start Sample.w_tree)).
  unfold capacity. cbn. lia.
Defined.

Lemma X12_witness :
  w_fs (p_world (run_in_order (H := Sample.toy) (set_cores 4 Sample.dash_c)
                   ["report.txt"] Sample.w_report))
  = w_fs Sample.w_report.
Proof.
  apply (X12_no_file_changes (H := Sample.toy) (set_cores 4 Sample.dash_c) ["report.txt"]
           Sample.w_report
           (mkSched (run_in_order (H := Sample.toy) (set_cores 4 Sample.dash_c)
                       ["report.txt"] Sample.w_report)
              0 [("report.txt", Finished)])).
  - left. reflexivity.
  - apply (run_to_end (H := Sample.toy) (set_cores 4 Sample.dash_c) [] ["report.txt"]
             (start Sample.w_report)).
    unfold capacity. cbn. lia.
Defined.

Lemma X13_witness :
  w_stdout (p_world (run_in_order (H := Sample.toy) Sample.recursive_4
                       ["docs"] Sample.w_tree))
  = [].
Proof.
  apply (X13_stdout_untouched (H := Sample.toy) Sample.recursive_4 ["docs"]
           Sample.w_tree
           (mkSched (run_in_order (H := Sample.toy) Sample.recursive_4
                       ["docs"] Sample.w_tree)
              0 [("docs", Finished)])).
  - left. reflexivity.
  - apply (run_to_end (H := Sample.toy) Sample.recursive_4 [] ["docs"]
             (start Sample.w_tree)).
    unfold capacity. cbn. lia.
Defined.

Lemma X15_witness :
  ∃ s',
    rtc (step (H := Sample.toy) Sample.cores_4)
      (initial ["report.txt"; "missing"] Sample.w_report) s' ∧
    all_finished s' ∧ s_sem s' = 0%nat.
Proof.
  apply (X15_no_deadlock (H := Sample.toy) Sample.cores_4
           ["report.txt"; "missing"] Sample.w_report).
  - unfold capacity. cbn. lia.
  - apply rtc_refl.
Defined.
